(** * mirror_write: stroke capture and dual-zone rendering

    A shallow embedding of the whiteboard's core:

    - [Types]      : src/types.ts (points, strokes, the zone enum, the tool type);
    - [Canvas]     : the part of the browser's [CanvasRenderingContext2D] the
                     program drives, as a recording context: every property
                     assignment and method call is appended to a trace, and
                     every painting call ([stroke], [clearRect]) is appended,
                     with the drawing state it was issued under, to the surface;
    - [DrawUtils]  : src/utils/drawUtils.ts ([drawStroke], [getNormalizedPoint]);
    - [CanvasZone] : src/components/CanvasZone.tsx (mirror and visibility
                     decisions, [render], the pointer-event wrappers, the view);
    - [App]        : src/App.tsx (the session state and its event handlers).

    A JavaScript [number] is an IEEE 754 binary64 value: it is modelled by the
    kernel's primitive [float], whose operations round as JavaScript's do.

    React state: a handler closes over the values of the render it was created
    in and queues updates ([setX(v)] or [setX(prev => ...)]).  Handlers are
    modelled as functions from that snapshot to the list of queued updates;
    [App.dispatch] applies the queue to the state and re-renders, so the next
    handler sees the new values (one render per event). *)

From Stdlib Require Import Floats ZArith List Bool String Lia DecimalString.
Import ListNotations.

Local Open Scope string_scope.
Local Open Scope list_scope.

(* ------------------------------------------------------------------ *)
(** * src/types.ts *)

Module Types.

Definition number := float.

(** [Point]: normalised coordinates. *)
Record Point := { x : number; y : number }.

(** [Stroke]; [isEraser?: boolean] is an optional field. *)
Record Stroke := {
  points : list Point;
  color : string;
  width : number;
  isEraser : option bool
}.

(** [enum ActiveZone]. *)
Inductive ActiveZone := TOP | BOTTOM.

(** [type ToolType = "pen" | "eraser"]. *)
Inductive ToolType := pen | eraser.

(** [a === b] on zones, [a !== b] is its negation. *)
Definition zone_eqb (a b : ActiveZone) : bool :=
  match a, b with
  | TOP, TOP | BOTTOM, BOTTOM => true
  | _, _ => false
  end.

Definition tool_eqb (a b : ToolType) : bool :=
  match a, b with
  | pen, pen | eraser, eraser => true
  | _, _ => false
  end.

(** JavaScript truthiness of an optional boolean ([undefined] is falsy). *)
Definition truthy (b : option bool) : bool :=
  match b with
  | Some true => true
  | _ => false
  end.

(** JavaScript truthiness of a string (only the empty string is falsy). *)
Definition truthy_string (s : string) : bool :=
  match s with
  | EmptyString => false
  | _ => true
  end.

(** JavaScript truthiness of a number ([0], [-0] and [NaN] are falsy). *)
Definition truthy_number (n : number) : bool :=
  negb (PrimFloat.eqb n 0%float || PrimFloat.is_nan n).

End Types.

(* ------------------------------------------------------------------ *)
(** * The 2D drawing context *)

Module Canvas.
Import Types.

(** One element of the current path. *)
Inductive PathCmd :=
| MoveTo (px py : number)
| LineTo (px py : number).

(** What reaches the surface: a cleared rectangle, or a path stroked under
    the drawing state in force when [stroke()] was called. *)
Inductive PaintOp :=
| Cleared (rx ry rw rh : number)
| Stroked (path : list PathCmd) (cap join composite style : string)
          (thickness : number).

(** Every interaction with the context, in call order. *)
Inductive Call :=
| CallBeginPath
| CallSetLineCap (v : string)
| CallSetLineJoin (v : string)
| CallSetGlobalCompositeOperation (v : string)
| CallSetStrokeStyle (v : string)
| CallSetLineWidth (v : number)
| CallMoveTo (px py : number)
| CallLineTo (px py : number)
| CallStroke
| CallClearRect (rx ry rw rh : number).

Record Ctx := {
  lineCap : string;
  lineJoin : string;
  globalCompositeOperation : string;
  strokeStyle : string;
  lineWidth : number;
  currentPath : list PathCmd;
  surface : list PaintOp;
  trace : list Call
}.

(** A context as the browser hands it out. *)
Definition fresh : Ctx :=
  {| lineCap := "butt"; lineJoin := "miter";
     globalCompositeOperation := "source-over";
     strokeStyle := "#000000"; lineWidth := 1%float;
     currentPath := []; surface := []; trace := [] |}.

Definition beginPath (c : Ctx) : Ctx :=
  {| lineCap := lineCap c; lineJoin := lineJoin c;
     globalCompositeOperation := globalCompositeOperation c;
     strokeStyle := strokeStyle c; lineWidth := lineWidth c;
     currentPath := []; surface := surface c;
     trace := trace c ++ [CallBeginPath] |}.

Definition set_lineCap (v : string) (c : Ctx) : Ctx :=
  {| lineCap := v; lineJoin := lineJoin c;
     globalCompositeOperation := globalCompositeOperation c;
     strokeStyle := strokeStyle c; lineWidth := lineWidth c;
     currentPath := currentPath c; surface := surface c;
     trace := trace c ++ [CallSetLineCap v] |}.

Definition set_lineJoin (v : string) (c : Ctx) : Ctx :=
  {| lineCap := lineCap c; lineJoin := v;
     globalCompositeOperation := globalCompositeOperation c;
     strokeStyle := strokeStyle c; lineWidth := lineWidth c;
     currentPath := currentPath c; surface := surface c;
     trace := trace c ++ [CallSetLineJoin v] |}.

Definition set_globalCompositeOperation (v : string) (c : Ctx) : Ctx :=
  {| lineCap := lineCap c; lineJoin := lineJoin c;
     globalCompositeOperation := v;
     strokeStyle := strokeStyle c; lineWidth := lineWidth c;
     currentPath := currentPath c; surface := surface c;
     trace := trace c ++ [CallSetGlobalCompositeOperation v] |}.

Definition set_strokeStyle (v : string) (c : Ctx) : Ctx :=
  {| lineCap := lineCap c; lineJoin := lineJoin c;
     globalCompositeOperation := globalCompositeOperation c;
     strokeStyle := v; lineWidth := lineWidth c;
     currentPath := currentPath c; surface := surface c;
     trace := trace c ++ [CallSetStrokeStyle v] |}.

Definition set_lineWidth (v : number) (c : Ctx) : Ctx :=
  {| lineCap := lineCap c; lineJoin := lineJoin c;
     globalCompositeOperation := globalCompositeOperation c;
     strokeStyle := strokeStyle c; lineWidth := v;
     currentPath := currentPath c; surface := surface c;
     trace := trace c ++ [CallSetLineWidth v] |}.

Definition moveTo (px py : number) (c : Ctx) : Ctx :=
  {| lineCap := lineCap c; lineJoin := lineJoin c;
     globalCompositeOperation := globalCompositeOperation c;
     strokeStyle := strokeStyle c; lineWidth := lineWidth c;
     currentPath := currentPath c ++ [MoveTo px py]; surface := surface c;
     trace := trace c ++ [CallMoveTo px py] |}.

Definition lineTo (px py : number) (c : Ctx) : Ctx :=
  {| lineCap := lineCap c; lineJoin := lineJoin c;
     globalCompositeOperation := globalCompositeOperation c;
     strokeStyle := strokeStyle c; lineWidth := lineWidth c;
     currentPath := currentPath c ++ [LineTo px py]; surface := surface c;
     trace := trace c ++ [CallLineTo px py] |}.

(** [ctx.stroke()]: the current path is painted under the current state. *)
Definition stroke (c : Ctx) : Ctx :=
  {| lineCap := lineCap c; lineJoin := lineJoin c;
     globalCompositeOperation := globalCompositeOperation c;
     strokeStyle := strokeStyle c; lineWidth := lineWidth c;
     currentPath := currentPath c;
     surface := surface c ++
       [Stroked (currentPath c) (lineCap c) (lineJoin c)
                (globalCompositeOperation c) (strokeStyle c) (lineWidth c)];
     trace := trace c ++ [CallStroke] |}.

Definition clearRect (rx ry rw rh : number) (c : Ctx) : Ctx :=
  {| lineCap := lineCap c; lineJoin := lineJoin c;
     globalCompositeOperation := globalCompositeOperation c;
     strokeStyle := strokeStyle c; lineWidth := lineWidth c;
     currentPath := currentPath c;
     surface := surface c ++ [Cleared rx ry rw rh];
     trace := trace c ++ [CallClearRect rx ry rw rh] |}.

(** The [<canvas>] element: its backing-store size and its 2D context
    ([getContext("2d")] may return [null]). *)
Record Element := {
  canvas_width : number;
  canvas_height : number;
  context2d : option Ctx
}.

(** What a context-transforming function adds to the surface and the trace. *)
Definition painted_by (f : Ctx -> Ctx) (c : Ctx) : list PaintOp :=
  skipn (List.length (surface c)) (surface (f c)).

Definition called_by (f : Ctx -> Ctx) (c : Ctx) : list Call :=
  skipn (List.length (trace c)) (trace (f c)).

(** The target point of a path element. *)
Definition coords (c : PathCmd) : number * number :=
  match c with
  | MoveTo px py | LineTo px py => (px, py)
  end.

(** Reading of a painted mark.  A path that moves to a point and draws a
    line to that same point has zero length; stroked with round caps the
    rasteriser paints it as a filled disc centred on the point whose
    diameter is the line width. *)
Definition is_dot (op : PaintOp) (cx cy diameter : number) : Prop :=
  exists join composite style,
    op = Stroked [MoveTo cx cy; LineTo cx cy] "round" join composite style
                 diameter.

End Canvas.

(* ------------------------------------------------------------------ *)
(** * src/utils/drawUtils.ts *)

Module DrawUtils.
Import Types Canvas.

(** [getBoundingClientRect()] of the event's target. *)
Record DOMRect := {
  left : number;
  top : number;
  rect_width : number;
  rect_height : number
}.

(** The fields of [React.PointerEvent<HTMLCanvasElement>] the program
    reads.  [currentTarget] is the canvas the handler is attached to,
    named by the tag of its zone. *)
Record PointerEvent := {
  pointerType : string;
  buttons : Z;
  pointerId : Z;
  clientX : number;
  clientY : number;
  currentTarget : ActiveZone;
  boundingClientRect : DOMRect
}.

(** [drawStroke(ctx, stroke, width, height, isMirror)].
    The first [match] is [if (stroke.points.length < 1) return;] together
    with [const p0 = stroke.points[0]]; the second one is
    [if (stroke.points.length === 1) ... else for (i = 1; ...)]. *)
Definition drawStroke (ctx : Ctx) (stroke : Stroke) (width height : number)
           (isMirror : bool) : Ctx :=
  match points stroke with
  | [] => ctx
  | p0 :: rest =>
      let ctx := beginPath ctx in
      let ctx := set_lineCap "round" ctx in
      let ctx := set_lineJoin "round" ctx in
      let ctx :=
        if truthy (isEraser stroke) then
          set_strokeStyle "rgba(0,0,0,1)"
            (set_globalCompositeOperation "destination-out" ctx)
        else
          set_strokeStyle (color stroke)
            (set_globalCompositeOperation "source-over" ctx) in
      let ctx := set_lineWidth (Types.width stroke) ctx in
      let startX := (x p0 * width)%float in
      let startY :=
        if isMirror then ((1 - y p0) * height)%float
        else (y p0 * height)%float in
      let ctx := moveTo startX startY ctx in
      let ctx :=
        match rest with
        | [] => lineTo startX startY ctx
        | _ :: _ =>
            fold_left
              (fun ctx p =>
                 let px := (x p * width)%float in
                 let py :=
                   if isMirror then ((1 - y p) * height)%float
                   else (y p * height)%float in
                 lineTo px py ctx)
              rest ctx
        end in
      let ctx := Canvas.stroke ctx in
      set_globalCompositeOperation "source-over" ctx
  end.

(** [getNormalizedPoint(e)]. *)
Definition getNormalizedPoint (e : PointerEvent) : Point :=
  let rect := boundingClientRect e in
  {| x := ((clientX e - left rect) / rect_width rect)%float;
     y := ((clientY e - top rect) / rect_height rect)%float |}.

End DrawUtils.

(* ------------------------------------------------------------------ *)
(** * src/components/CanvasZone.tsx *)

Module CanvasZone.
Import Types Canvas DrawUtils.

(** [CanvasZoneProps] without the three callbacks, which the wrappers
    below take as arguments. *)
Record Props := {
  zoneType : ActiveZone;
  activeZone : ActiveZone;
  isHidden : bool;
  bgImage : string;
  strokes : list Stroke;
  currentStroke : option Stroke;
  showLabel : bool
}.

(** [const isMirror = activeZone !== zoneType]. *)
Definition isMirror (p : Props) : bool :=
  negb (zone_eqb (activeZone p) (zoneType p)).

(** [const isActiveWritingZone = activeZone === zoneType]. *)
Definition isActiveWritingZone (p : Props) : bool :=
  zone_eqb (activeZone p) (zoneType p).

(** [const shouldShowContent = !(isActiveWritingZone && isHidden)]. *)
Definition shouldShowContent (p : Props) : bool :=
  negb (isActiveWritingZone p && isHidden p).

(** The body of [render] once canvas and context are at hand. *)
Definition render_ctx (p : Props) (canvas_w canvas_h : number)
           (devicePixelRatio : number) (ctx : Ctx) : Ctx :=
  let ctx := clearRect 0%float 0%float canvas_w canvas_h ctx in
  if negb (shouldShowContent p) then ctx
  else
    let dpr :=
      if truthy_number devicePixelRatio then devicePixelRatio
      else 1%float in
    let logicalWidth := (canvas_w / dpr)%float in
    let logicalHeight := (canvas_h / dpr)%float in
    let ctx :=
      fold_left
        (fun ctx stroke =>
           drawStroke ctx stroke logicalWidth logicalHeight (isMirror p))
        (strokes p) ctx in
    match currentStroke p with
    | Some cs => drawStroke ctx cs logicalWidth logicalHeight (isMirror p)
    | None => ctx
    end.

(** [render]: [canvasRef.current] may be [null] and so may the context;
    in both cases nothing happens. *)
Definition render (p : Props) (canvasRef : option Element)
           (devicePixelRatio : number) : option Element :=
  match canvasRef with
  | None => None
  | Some canvas =>
      match context2d canvas with
      | None => Some canvas
      | Some ctx =>
          Some {| canvas_width := canvas_width canvas;
                  canvas_height := canvas_height canvas;
                  context2d :=
                    Some (render_ctx p (canvas_width canvas)
                            (canvas_height canvas) devicePixelRatio ctx) |}
      end
  end.

(** The event wrappers.  [U] is what the parent's callbacks return. *)
Definition handlePointerDown {U : Type} (p : Props)
           (onPointerDown : PointerEvent -> Point -> list U)
           (e : PointerEvent) : list U :=
  if negb (isActiveWritingZone p) then []
  else onPointerDown e (getNormalizedPoint e).

Definition handlePointerMove {U : Type} (p : Props)
           (onPointerMove : PointerEvent -> Point -> list U)
           (e : PointerEvent) : list U :=
  if negb (isActiveWritingZone p) then []
  else onPointerMove e (getNormalizedPoint e).

(** [onPointerUp={isActiveWritingZone ? onPointerUp : undefined}], and the
    same expression for [onPointerLeave]. *)
Definition pointerUpListener {U : Type} (p : Props)
           (onPointerUp : PointerEvent -> list U)
  : option (PointerEvent -> list U) :=
  if isActiveWritingZone p then Some onPointerUp else None.

Definition pointerLeaveListener {U : Type} (p : Props)
           (onPointerUp : PointerEvent -> list U)
  : option (PointerEvent -> list U) :=
  if isActiveWritingZone p then Some onPointerUp else None.

(** The elements the component returns around the canvas: the background
    image (present only when there is one and content is shown; flipped by
    the class [scale-y-[-1]] when mirrored) and the label. *)
Record View := {
  background : option (string * bool);
  label : option string;
  canvasPointerEvents : bool
}.

Definition view (p : Props) : View :=
  {| background :=
       if truthy_string (bgImage p) && shouldShowContent p
       then Some (bgImage p, isMirror p) else None;
     label :=
       if showLabel p
       then Some (if isActiveWritingZone p then "写字区" else "显示区")
       else None;
     canvasPointerEvents := isActiveWritingZone p |}.

End CanvasZone.

(* ------------------------------------------------------------------ *)
(** * src/App.tsx *)

Module App.
Import Types DrawUtils.

(** The [useState] cells of [App]. *)
Record State := {
  strokes : list Stroke;
  currentStroke : option Stroke;
  currentTool : ToolType;
  penColor : string;
  penWidth : number;
  eraserWidth : number;
  showSettings : bool;
  showAbout : bool;
  bgImage : string;
  activeZone : ActiveZone;
  hideActiveZone : bool;
  showLabels : bool
}.

(** What a handler does besides returning: state updates it queues (a
    setter applied to a value is the constant updater) and calls on the
    event's target. *)
Inductive Effect :=
| setStrokes (f : list Stroke -> list Stroke)
| setCurrentStroke (f : option Stroke -> option Stroke)
| setCurrentTool (v : ToolType)
| setPenColor (v : string)
| setPenWidth (v : number)
| setEraserWidth (v : number)
| setShowSettings (v : bool)
| setShowAbout (v : bool)
| setBgImage (v : string)
| setActiveZone (f : ActiveZone -> ActiveZone)
| setHideActiveZone (v : bool)
| setShowLabels (v : bool)
| setPointerCapture (target : ActiveZone) (id : Z)
| releasePointerCapture (target : ActiveZone) (id : Z).

(** The session: React state plus, for each captured pointer id, the
    canvas holding the capture. *)
Record Session := {
  state : State;
  captures : list (Z * ActiveZone)
}.

(** Initial values of the [useState] calls;
    [import.meta.env.VITE_DEFAULT_IMAGE_PATH || ""] is the argument. *)
Definition initial (defaultImagePath : string) : Session :=
  {| state :=
       {| strokes := []; currentStroke := None; currentTool := pen;
          penColor := "#000000"; penWidth := 4%float;
          eraserWidth := 20%float; showSettings := false;
          showAbout := false; bgImage := defaultImagePath;
          activeZone := BOTTOM; hideActiveZone := false;
          showLabels := true |};
     captures := [] |}.

(** ** Handlers, as functions of the render snapshot *)

Section Handlers.
Variable snap : State.

Definition handlePointerDown (e : PointerEvent) (point : Point)
  : list Effect :=
  if String.eqb (pointerType e) "mouse" && negb (Z.eqb (buttons e) 1)
  then []
  else
    let newStroke :=
      {| points := [point];
         color := penColor snap;
         width := if tool_eqb (currentTool snap) eraser
                  then eraserWidth snap else penWidth snap;
         isEraser := Some (tool_eqb (currentTool snap) eraser) |} in
    [ setPointerCapture (currentTarget e) (pointerId e);
      setCurrentStroke (fun _ => Some newStroke) ].

Definition handlePointerMove (e : PointerEvent) (point : Point)
  : list Effect :=
  match currentStroke snap with
  | None => []
  | Some cs =>
      if String.eqb (pointerType e) "mouse" && negb (Z.eqb (buttons e) 1)
      then [ setStrokes (fun prev => prev ++ [cs]);
             setCurrentStroke (fun _ => None) ]
      else
        [ setCurrentStroke
            (fun prev =>
               match prev with
               | None => None
               | Some prev =>
                   Some {| points := points prev ++ [point];
                           color := color prev;
                           width := width prev;
                           isEraser := isEraser prev |}
               end) ]
  end.

Definition handlePointerUp (e : PointerEvent) : list Effect :=
  match currentStroke snap with
  | None => []
  | Some cs =>
      [ setStrokes (fun prev => prev ++ [cs]);
        setCurrentStroke (fun _ => None);
        releasePointerCapture (currentTarget e) (pointerId e) ]
  end.

(** [file] is [e.target.files?.[0]] turned into its object URL. *)
Definition handleImageUpload (file : option string) : list Effect :=
  match file with
  | Some url => [ setBgImage url ]
  | None => []
  end.

Definition handleClearStrokes : list Effect :=
  [ setStrokes (fun _ => []); setCurrentStroke (fun _ => None) ].

(** The inline callbacks handed to [Sidebar] and [SettingsModal]. *)
Definition onToggleSide : list Effect :=
  [ setActiveZone
      (fun prev => match prev with TOP => BOTTOM | BOTTOM => TOP end) ].

Definition onToggleVisibility : list Effect :=
  [ setHideActiveZone (negb (hideActiveZone snap)) ].

Definition onToggleLabels : list Effect :=
  [ setShowLabels (negb (showLabels snap)) ].

Definition onWidthChange (w : number) : list Effect :=
  if tool_eqb (currentTool snap) eraser
  then [ setEraserWidth w ] else [ setPenWidth w ].

(** Props of the [CanvasZone] instance tagged [z]. *)
Definition zoneProps (z : ActiveZone) : CanvasZone.Props :=
  {| CanvasZone.zoneType := z;
     CanvasZone.activeZone := activeZone snap;
     CanvasZone.isHidden := hideActiveZone snap;
     CanvasZone.bgImage := bgImage snap;
     CanvasZone.strokes := strokes snap;
     CanvasZone.currentStroke := currentStroke snap;
     CanvasZone.showLabel := showLabels snap |}.

End Handlers.

(** ** Events *)

Inductive Event :=
| PointerDown (e : PointerEvent)
| PointerMove (e : PointerEvent)
| PointerUp (e : PointerEvent)
| PointerLeave (e : PointerEvent)
| SettingsClick
| ClearClick
| UploadImage (file : option string)
| ToggleSide
| ToggleVisibility
| ToolChange (t : ToolType)
| ClearBg
| ToggleLabels
| ToggleFullscreen
| AboutClick
| AboutClose
| SettingsClose
| ColorChange (c : string)
| WidthChange (w : number).

(** The handler an event reaches, run on the snapshot.  Pointer events go
    through the wrappers of the zone whose canvas is the event's target;
    the settings panel exists only while [showSettings] holds. *)
Definition handle (snap : State) (ev : Event) : list Effect :=
  match ev with
  | PointerDown e =>
      CanvasZone.handlePointerDown (zoneProps snap (currentTarget e))
        (handlePointerDown snap) e
  | PointerMove e =>
      CanvasZone.handlePointerMove (zoneProps snap (currentTarget e))
        (handlePointerMove snap) e
  | PointerUp e =>
      match CanvasZone.pointerUpListener (zoneProps snap (currentTarget e))
              (handlePointerUp snap) with
      | Some listener => listener e
      | None => []
      end
  | PointerLeave e =>
      match CanvasZone.pointerLeaveListener
              (zoneProps snap (currentTarget e)) (handlePointerUp snap) with
      | Some listener => listener e
      | None => []
      end
  | SettingsClick => [ setShowSettings true ]
  | ClearClick => handleClearStrokes
  | UploadImage file => handleImageUpload file
  | ToggleSide => onToggleSide
  | ToggleVisibility => onToggleVisibility snap
  | ToolChange t => [ setCurrentTool t ]
  | ClearBg => [ setBgImage "" ]
  | ToggleLabels => onToggleLabels snap
  | ToggleFullscreen => []
  | AboutClick => [ setShowAbout true ]
  | AboutClose => [ setShowAbout false ]
  | SettingsClose =>
      if showSettings snap then [ setShowSettings false ] else []
  | ColorChange c =>
      if showSettings snap then [ setPenColor c ] else []
  | WidthChange w =>
      if showSettings snap then onWidthChange snap w else []
  end.

(** ** Applying the queue *)

Definition with_strokes (v : list Stroke) (s : State) : State :=
  {| strokes := v; currentStroke := currentStroke s;
     currentTool := currentTool s; penColor := penColor s;
     penWidth := penWidth s; eraserWidth := eraserWidth s;
     showSettings := showSettings s; showAbout := showAbout s;
     bgImage := bgImage s; activeZone := activeZone s;
     hideActiveZone := hideActiveZone s; showLabels := showLabels s |}.

Definition with_currentStroke (v : option Stroke) (s : State) : State :=
  {| strokes := strokes s; currentStroke := v;
     currentTool := currentTool s; penColor := penColor s;
     penWidth := penWidth s; eraserWidth := eraserWidth s;
     showSettings := showSettings s; showAbout := showAbout s;
     bgImage := bgImage s; activeZone := activeZone s;
     hideActiveZone := hideActiveZone s; showLabels := showLabels s |}.

Definition with_activeZone (v : ActiveZone) (s : State) : State :=
  {| strokes := strokes s; currentStroke := currentStroke s;
     currentTool := currentTool s; penColor := penColor s;
     penWidth := penWidth s; eraserWidth := eraserWidth s;
     showSettings := showSettings s; showAbout := showAbout s;
     bgImage := bgImage s; activeZone := v;
     hideActiveZone := hideActiveZone s; showLabels := showLabels s |}.

Definition apply_state (eff : Effect) (s : State) : State :=
  match eff with
  | setStrokes f => with_strokes (f (strokes s)) s
  | setCurrentStroke f => with_currentStroke (f (currentStroke s)) s
  | setActiveZone f => with_activeZone (f (activeZone s)) s
  | setCurrentTool v =>
      {| strokes := strokes s; currentStroke := currentStroke s;
         currentTool := v; penColor := penColor s;
         penWidth := penWidth s; eraserWidth := eraserWidth s;
         showSettings := showSettings s; showAbout := showAbout s;
         bgImage := bgImage s; activeZone := activeZone s;
         hideActiveZone := hideActiveZone s; showLabels := showLabels s |}
  | setPenColor v =>
      {| strokes := strokes s; currentStroke := currentStroke s;
         currentTool := currentTool s; penColor := v;
         penWidth := penWidth s; eraserWidth := eraserWidth s;
         showSettings := showSettings s; showAbout := showAbout s;
         bgImage := bgImage s; activeZone := activeZone s;
         hideActiveZone := hideActiveZone s; showLabels := showLabels s |}
  | setPenWidth v =>
      {| strokes := strokes s; currentStroke := currentStroke s;
         currentTool := currentTool s; penColor := penColor s;
         penWidth := v; eraserWidth := eraserWidth s;
         showSettings := showSettings s; showAbout := showAbout s;
         bgImage := bgImage s; activeZone := activeZone s;
         hideActiveZone := hideActiveZone s; showLabels := showLabels s |}
  | setEraserWidth v =>
      {| strokes := strokes s; currentStroke := currentStroke s;
         currentTool := currentTool s; penColor := penColor s;
         penWidth := penWidth s; eraserWidth := v;
         showSettings := showSettings s; showAbout := showAbout s;
         bgImage := bgImage s; activeZone := activeZone s;
         hideActiveZone := hideActiveZone s; showLabels := showLabels s |}
  | setShowSettings v =>
      {| strokes := strokes s; currentStroke := currentStroke s;
         currentTool := currentTool s; penColor := penColor s;
         penWidth := penWidth s; eraserWidth := eraserWidth s;
         showSettings := v; showAbout := showAbout s;
         bgImage := bgImage s; activeZone := activeZone s;
         hideActiveZone := hideActiveZone s; showLabels := showLabels s |}
  | setShowAbout v =>
      {| strokes := strokes s; currentStroke := currentStroke s;
         currentTool := currentTool s; penColor := penColor s;
         penWidth := penWidth s; eraserWidth := eraserWidth s;
         showSettings := showSettings s; showAbout := v;
         bgImage := bgImage s; activeZone := activeZone s;
         hideActiveZone := hideActiveZone s; showLabels := showLabels s |}
  | setBgImage v =>
      {| strokes := strokes s; currentStroke := currentStroke s;
         currentTool := currentTool s; penColor := penColor s;
         penWidth := penWidth s; eraserWidth := eraserWidth s;
         showSettings := showSettings s; showAbout := showAbout s;
         bgImage := v; activeZone := activeZone s;
         hideActiveZone := hideActiveZone s; showLabels := showLabels s |}
  | setHideActiveZone v =>
      {| strokes := strokes s; currentStroke := currentStroke s;
         currentTool := currentTool s; penColor := penColor s;
         penWidth := penWidth s; eraserWidth := eraserWidth s;
         showSettings := showSettings s; showAbout := showAbout s;
         bgImage := bgImage s; activeZone := activeZone s;
         hideActiveZone := v; showLabels := showLabels s |}
  | setShowLabels v =>
      {| strokes := strokes s; currentStroke := currentStroke s;
         currentTool := currentTool s; penColor := penColor s;
         penWidth := penWidth s; eraserWidth := eraserWidth s;
         showSettings := showSettings s; showAbout := showAbout s;
         bgImage := bgImage s; activeZone := activeZone s;
         hideActiveZone := hideActiveZone s; showLabels := v |}
  | setPointerCapture _ _ | releasePointerCapture _ _ => s
  end.

Definition apply_captures (eff : Effect) (cs : list (Z * ActiveZone))
  : list (Z * ActiveZone) :=
  match eff with
  | setPointerCapture target id =>
      (id, target) :: filter (fun c => negb (Z.eqb (fst c) id)) cs
  | releasePointerCapture target id =>
      filter (fun c => negb (Z.eqb (fst c) id && zone_eqb (snd c) target)) cs
  | _ => cs
  end.

Definition apply (w : Session) (eff : Effect) : Session :=
  {| state := apply_state eff (state w);
     captures := apply_captures eff (captures w) |}.

(** One event: the handler runs on the current render's snapshot, its
    queue is applied in order, and the component re-renders. *)
Definition dispatch (w : Session) (ev : Event) : Session :=
  fold_left apply (handle (state w) ev) w.

Definition run (w : Session) (evs : list Event) : Session :=
  fold_left dispatch evs w.

(** The session with another in-progress stroke, all else equal. *)
Definition replace_current (v : option Stroke) (w : Session) : Session :=
  {| state := with_currentStroke v (state w); captures := captures w |}.

(** The two [CanvasZone] instances of the session. *)
Definition zone (w : Session) (z : ActiveZone) : CanvasZone.Props :=
  zoneProps (state w) z.

(** A pointer-down the program acts on: it reaches the active zone's
    canvas, and is not a mouse event with other than the primary button. *)
Definition accepted (w : Session) (e : PointerEvent) : bool :=
  zone_eqb (activeZone (state w)) (currentTarget e)
  && negb (String.eqb (pointerType e) "mouse" && negb (Z.eqb (buttons e) 1)).

End App.

(* ------------------------------------------------------------------ *)
(** * The coordinate contract and the expected output of the renderer

    [Geometry] states the transform and the commands a stroke is expected to
    produce in the words of the design (pixelX = x * W; pixelY = (1 - y) * H
    when mirrored, y * H otherwise); the theorems below compare
    [DrawUtils.drawStroke] with it. *)

Module Geometry.
Import Types Canvas.

(** The reflection of a normalised Y about the horizontal midline. *)
Definition mirror_y (v : number) : number := (1 - v)%float.

Definition transform (p : Point) (W H : number) (mirror : bool)
  : number * number :=
  ((x p * W)%float,
   if mirror then (mirror_y (y p) * H)%float else (y p * H)%float).

Definition move_to (q : number * number) : PathCmd := MoveTo (fst q) (snd q).
Definition line_to (q : number * number) : PathCmd := LineTo (fst q) (snd q).

(** The path of a stroke: the first point opens it, every later point adds
    a straight segment; a lone point gets a segment to itself. *)
Definition path_of (pts : list Point) (W H : number) (mirror : bool)
  : list PathCmd :=
  match pts with
  | [] => []
  | [p0] => [move_to (transform p0 W H mirror);
             line_to (transform p0 W H mirror)]
  | p0 :: rest =>
      move_to (transform p0 W H mirror)
        :: map (fun p => line_to (transform p W H mirror)) rest
  end.

Definition composite_of (s : Stroke) : string :=
  if truthy (isEraser s) then "destination-out" else "source-over".

Definition style_of (s : Stroke) : string :=
  if truthy (isEraser s) then "rgba(0,0,0,1)" else color s.

(** What one stroke adds to the surface. *)
Definition paint_of (s : Stroke) (W H : number) (mirror : bool)
  : list PaintOp :=
  match points s with
  | [] => []
  | pts => [Stroked (path_of pts W H mirror) "round" "round"
              (composite_of s) (style_of s) (width s)]
  end.

(** The body of the loop of [drawStroke], named so that facts about the
    loop can be stated. *)
Definition segment (W H : number) (mirror : bool) (ctx : Ctx) (p : Point)
  : Ctx :=
  let px := (x p * W)%float in
  let py :=
    if mirror then ((1 - y p) * H)%float else (y p * H)%float in
  lineTo px py ctx.

(** The calls one stroke makes on the context, in order. *)
Definition line_call (q : number * number) : Call :=
  CallLineTo (fst q) (snd q).

Definition calls_of (s : Stroke) (W H : number) (mirror : bool)
  : list Call :=
  match points s with
  | [] => []
  | p0 :: rest =>
      [CallBeginPath; CallSetLineCap "round"; CallSetLineJoin "round";
       CallSetGlobalCompositeOperation (composite_of s);
       CallSetStrokeStyle (style_of s);
       CallSetLineWidth (width s);
       CallMoveTo (fst (transform p0 W H mirror))
                  (snd (transform p0 W H mirror))]
      ++ match rest with
         | [] => [line_call (transform p0 W H mirror)]
         | _ => map (fun p => line_call (transform p W H mirror)) rest
         end
      ++ [CallStroke; CallSetGlobalCompositeOperation "source-over"]
  end.

(** Two strokes that differ at most in the colour of an eraser. *)
Definition same_but_eraser_color (a b : Stroke) : Prop :=
  points a = points b /\ width a = width b /\ isEraser a = isEraser b /\
  (truthy (isEraser a) = false -> color a = color b).

Definition same_current (a b : option Stroke) : Prop :=
  match a, b with
  | Some a, Some b => same_but_eraser_color a b
  | None, None => True
  | _, _ => False
  end.

(** The normalised range [0, 1], as a test on doubles. *)
Definition in_unit_interval (v : number) : bool :=
  ((0 <=? v) && (v <=? 1))%float.

(** [k * 2^-53] as a double, for an integer [0 <= k <= 2^53]: the grid of
    spacing 2^-53 on [0, 1]. *)
Definition grid53 (k : Z) : number :=
  Z.ldexp (of_uint63 (Uint63.of_Z k)) (-53).

(** Membership in that grid, decided on the representation of [v]:
    [Prim2SF v] is sign, mantissa [m] and exponent [e], with value
    [m * 2^e].  Accepted are [+0], one, and the positive doubles below one
    whose mantissa has no bit under 2^-53.  Every double in [0.5, 1] is on
    the grid; below 0.5 doubles are denser than the grid. *)
Definition on_grid53 (v : number) : bool :=
  match Prim2SF v with
  | S754_zero false => true
  | S754_finite false m e =>
      ((e =? -52) && (Z.pos m =? 2 ^ 52))%Z
      || ((-105 <=? e) && (e <=? -53)
          && (Z.pos m mod 2 ^ (-53 - e) =? 0))%Z
  | _ => false
  end.

(** The same condition on a normal mantissa and exponent. *)
Definition on_grid (m : positive) (e : Z) : Prop :=
  (Z.pos (digits2_pos m) = 53 /\ -105 <= e <= -53 /\
   (2 ^ (-53 - e) | Z.pos m))%Z.

(** A mantissa with nothing shifted out of it yet. *)
Definition exact_rec (m : Z) : shr_record :=
  {| shr_m := m; shr_r := false; shr_s := false |}.

End Geometry.

(* ------------------------------------------------------------------ *)
(** * Concrete inputs used by the examples *)

Module Scenario.
Import Types Canvas DrawUtils App.

(** A canvas of 100 x 100 CSS pixels at the viewport's origin. *)
Definition rect100 : DOMRect :=
  {| left := 0%float; top := 0%float;
     rect_width := 100%float; rect_height := 100%float |}.

(** Primary mouse button pressed at the centre of the bottom canvas:
    the normalised point is (0.5, 0.5). *)
Definition down_center : PointerEvent :=
  {| pointerType := "mouse"; buttons := 1; pointerId := 1;
     clientX := 50%float; clientY := 50%float;
     currentTarget := BOTTOM; boundingClientRect := rect100 |}.

(** The button released at the same place. *)
Definition up_center : PointerEvent :=
  {| pointerType := "mouse"; buttons := 0; pointerId := 1;
     clientX := 50%float; clientY := 50%float;
     currentTarget := BOTTOM; boundingClientRect := rect100 |}.

(** A finger put down on the bottom canvas at (25, 75). *)
Definition touch_down : PointerEvent :=
  {| pointerType := "touch"; buttons := 1; pointerId := 7;
     clientX := 25%float; clientY := 75%float;
     currentTarget := BOTTOM; boundingClientRect := rect100 |}.

Definition center : Point := {| x := 0.5%float; y := 0.5%float |}.

(** The stroke the first press creates with the initial tool settings. *)
Definition dot_stroke : Stroke :=
  {| points := [center]; color := "#000000"; width := 4%float;
     isEraser := Some false |}.

Definition eraser_dot (c : string) : Stroke :=
  {| points := [center]; color := c; width := 20%float;
     isEraser := Some true |}.

Definition line_stroke : Stroke :=
  {| points := [ {| x := 0.25%float; y := 0.25%float |};
                 {| x := 0.5%float; y := 0.75%float |};
                 {| x := 1%float; y := 0%float |} ];
     color := "#ff0000"; width := 4%float; isEraser := None |}.

(** The mirrored top zone showing a line, an eraser dot of colour [c1],
    and an eraser dot of colour [c2] in progress. *)
Definition mirror_zone (c1 c2 : string) : CanvasZone.Props :=
  {| CanvasZone.zoneType := TOP; CanvasZone.activeZone := BOTTOM;
     CanvasZone.isHidden := false; CanvasZone.bgImage := "";
     CanvasZone.strokes := [line_stroke; eraser_dot c1];
     CanvasZone.currentStroke := Some (eraser_dot c2);
     CanvasZone.showLabel := true |}.

(** A session with a gesture in progress. *)
Definition drawing : Session := dispatch (initial "") (PointerDown down_center).

(** Bottom zone active, hidden mode on, two committed strokes. *)
Definition blind : Session :=
  {| state :=
       {| strokes := [dot_stroke; line_stroke]; currentStroke := None;
          currentTool := pen; penColor := "#000000";
          penWidth := 4%float; eraserWidth := 20%float;
          showSettings := false; showAbout := false; bgImage := "";
          activeZone := BOTTOM; hideActiveZone := true;
          showLabels := true |};
     captures := [] |}.

(** 0.3 as JavaScript reads it: the double nearest to 3/10. *)
Definition three_tenths : number := 0x1.3333333333333p-2%float.

End Scenario.

(* ------------------------------------------------------------------ *)
(** * src/components/Sidebar.tsx *)

Module Sidebar.
Import Types.

(** The state fields of [SidebarProps]. *)
Record Props := {
  activeZone : ActiveZone;
  hideActiveZone : bool;
  penColor : string;
  currentTool : ToolType;
  hasBgImage : bool;
  showLabels : bool
}.

(** The callbacks of [SidebarProps]; [U] is what running one produces. *)
Record Callbacks (U : Type) := {
  onSettingsClick : list U;
  onClearClick : list U;
  onUploadImage : option string -> list U;
  onToggleSide : list U;
  onToggleVisibility : list U;
  onToolChange : ToolType -> list U;
  onClearBg : list U;
  onToggleLabels : list U;
  onToggleFullscreen : list U;
  onAboutClick : list U
}.

Arguments onSettingsClick {U}.
Arguments onClearClick {U}.
Arguments onUploadImage {U}.
Arguments onToggleSide {U}.
Arguments onToggleVisibility {U}.
Arguments onToolChange {U}.
Arguments onClearBg {U}.
Arguments onToggleLabels {U}.
Arguments onToggleFullscreen {U}.
Arguments onAboutClick {U}.

(** The interactive elements, top to bottom.  The file input carries
    [e.target.files?.[0]] as an object URL. *)
Inductive Control :=
| PenButton
| EraserButton
| SideButton
| VisibilityButton
| LabelsButton
| ClearBgButton
| UploadInput (file : option string)
| FullscreenButton
| ClearButton
| AboutButton.

(** The button of a tool. *)
Definition tool_button (t : ToolType) : Control :=
  match t with
  | pen => PenButton
  | eraser => EraserButton
  end.

(** [hasBgImage ? <button clear/> : <label upload/>]: one of the two is in
    the tree, every other element always is. *)
Definition rendered (p : Props) (c : Control) : bool :=
  match c with
  | ClearBgButton => hasBgImage p
  | UploadInput _ => negb (hasBgImage p)
  | _ => true
  end.

(** The [onClick] / [onChange] of each element. *)
Definition activate {U : Type} (p : Props) (cb : Callbacks U) (c : Control)
  : list U :=
  match c with
  | PenButton =>
      onToolChange cb pen
        ++ (if tool_eqb (currentTool p) pen then onSettingsClick cb else [])
  | EraserButton =>
      onToolChange cb eraser
        ++ (if tool_eqb (currentTool p) eraser then onSettingsClick cb else [])
  | SideButton => onToggleSide cb
  | VisibilityButton => onToggleVisibility cb
  | LabelsButton => onToggleLabels cb
  | ClearBgButton => onClearBg cb
  | UploadInput file => onUploadImage cb file
  | FullscreenButton => onToggleFullscreen cb
  | ClearButton => onClearClick cb
  | AboutButton => onAboutClick cb
  end.

(** The state indicators: which tool button is highlighted, the caption of
    the side button, and whether the crossed-out eye is shown. *)
Record View := {
  penHighlighted : bool;
  eraserHighlighted : bool;
  sideCaption : string;
  eyeOff : bool;
  tagDimmed : bool
}.

Definition view (p : Props) : View :=
  {| penHighlighted := tool_eqb (currentTool p) pen;
     eraserHighlighted := tool_eqb (currentTool p) eraser;
     sideCaption := if zone_eqb (activeZone p) BOTTOM then "下写" else "上写";
     eyeOff := hideActiveZone p;
     tagDimmed := negb (showLabels p) |}.

End Sidebar.

(* ------------------------------------------------------------------ *)
(** * src/components/SettingsModal.tsx *)

Module SettingsModal.
Import Types.

Definition PRESET_COLORS : list string :=
  [ "#000000"; "#FF0000"; "#0000FF"; "#008000";
    "#FFA500"; "#800080"; "#FFC0CB"; "#808080" ].

Record Props := {
  color : string;
  width : number;
  isEraser : bool
}.

Record Callbacks (U : Type) := {
  onColorChange : string -> list U;
  onWidthChange : number -> list U;
  onClose : list U
}.

Arguments onColorChange {U}.
Arguments onWidthChange {U}.
Arguments onClose {U}.

(** The interactive elements.  The slider carries [Number(e.target.value)],
    the preset button its colour, the picker [e.target.value]. *)
Inductive Control :=
| CloseButton
| WidthSlider (value : number)
| PresetButton (c : string)
| ColorPicker (value : string).

(** [min="1"] and [max={isEraser ? "100" : "50"}] of the range input. *)
Definition slider_min : number := 1%float.

Definition slider_max (p : Props) : number :=
  if isEraser p then 100%float else 50%float.

(** Whether an element is in the tree and can report the value it carries:
    the colour section exists only for the pen ([!isEraser && ...]), a
    preset button exists for each entry of [PRESET_COLORS], and a range
    input reports values between its [min] and its [max]. *)
Definition available (p : Props) (c : Control) : bool :=
  match c with
  | CloseButton => true
  | WidthSlider v =>
      (PrimFloat.leb slider_min v && PrimFloat.leb v (slider_max p))%bool
  | PresetButton c =>
      negb (isEraser p) && existsb (String.eqb c) PRESET_COLORS
  | ColorPicker _ => negb (isEraser p)
  end.

Definition activate {U : Type} (cb : Callbacks U) (c : Control) : list U :=
  match c with
  | CloseButton => onClose cb
  | WidthSlider v => onWidthChange cb v
  | PresetButton c => onColorChange cb c
  | ColorPicker v => onColorChange cb v
  end.

(** What the panel shows: its title, the slider's maximum, whether the
    preview is the hollow eraser ring, and, for the pen, each preset with
    its selection ring ([color === c]). *)
Record View := {
  title : string;
  sliderMax : number;
  previewHollow : bool;
  presets : option (list (string * bool))
}.

Definition view (p : Props) : View :=
  {| title := if isEraser p then "橡皮擦设置" else "画笔设置";
     sliderMax := slider_max p;
     previewHollow := isEraser p;
     presets :=
       if negb (isEraser p)
       then Some (map (fun c => (c, String.eqb (color p) c)) PRESET_COLORS)
       else None |}.

End SettingsModal.

(* ------------------------------------------------------------------ *)
(** * src/components/AboutModal.tsx *)

Module AboutModal.
Import Types.

(** The component's own [useState] cells. *)
Record State := {
  content : string;
  loading : bool
}.

Definition initial : State := {| content := ""; loading := false |}.

Inductive Effect :=
| setContent (v : string)
| setLoading (v : bool)
| fetch (path : string).

(** How the promise chain started by [fetch(filePath)] ends: the request
    is answered ([res.ok], [res.status], [res.statusText], and [res.text()]
    fulfilled with the body or rejected with an error message), or the
    request itself is rejected. *)
Inductive Outcome :=
| Answered (ok : bool) (status : Z) (statusText : string)
           (text : string + string)
| Failed (message : string).

(** The effect of [useEffect(..., [isOpen, filePath])], run when either
    dependency changed. *)
Definition onOpenChange (isOpen : bool) (filePath : string) : list Effect :=
  if isOpen && truthy_string filePath
  then [ setLoading true; fetch filePath ]
  else [].

(** [`${n}`] for an integer. *)
Definition decimal (n : Z) : string := NilZero.string_of_int (Z.to_int n).

Definition newline : string := String (Ascii.ascii_of_nat 10) EmptyString.

(** The [.catch] handler. *)
Definition onRejected (message : string) : list Effect :=
  [ setContent
      ("# 加载失败" ++ newline ++ newline
       ++ "抱歉，无法加载文档内容。" ++ newline ++ newline
       ++ "错误信息: " ++ message)%string;
    setLoading false ].

(** The two [.then] handlers followed by [.catch]. *)
Definition settle (o : Outcome) : list Effect :=
  match o with
  | Answered ok status statusText text =>
      if negb ok
      then onRejected
             ("无法加载文档: " ++ decimal status ++ " " ++ statusText)%string
      else match text with
           | inl body => [ setContent body; setLoading false ]
           | inr message => onRejected message
           end
  | Failed message => onRejected message
  end.

Definition apply (s : State) (eff : Effect) : State :=
  match eff with
  | setContent v => {| content := v; loading := loading s |}
  | setLoading v => {| content := content s; loading := v |}
  | fetch _ => s
  end.

Definition run (s : State) (effs : list Effect) : State :=
  fold_left apply effs s.

(** What the component returns: nothing when closed ([if (!isOpen) return
    null]), the placeholder while loading, the document otherwise. *)
Inductive View :=
| Nothing
| Placeholder
| Document (markdown : string).

Definition view (isOpen : bool) (s : State) : View :=
  if negb isOpen then Nothing
  else if loading s then Placeholder
  else Document (content s).

End AboutModal.

(* ------------------------------------------------------------------ *)
(** * src/App.tsx: the component tree *)

Module Shell.
Import Types DrawUtils App.

(** Props handed to [<Sidebar ... />]; [hasBgImage={!!bgImage}]. *)
Definition sidebarProps (s : State) : Sidebar.Props :=
  {| Sidebar.activeZone := activeZone s;
     Sidebar.hideActiveZone := hideActiveZone s;
     Sidebar.penColor := penColor s;
     Sidebar.currentTool := currentTool s;
     Sidebar.hasBgImage := truthy_string (bgImage s);
     Sidebar.showLabels := showLabels s |}.

(** [handleToggleFullscreen] only talks to the document, it queues no
    update. *)
Definition sidebarCallbacks (snap : State) : Sidebar.Callbacks Effect :=
  {| Sidebar.onSettingsClick := [ setShowSettings true ];
     Sidebar.onClearClick := handleClearStrokes;
     Sidebar.onUploadImage := handleImageUpload;
     Sidebar.onToggleSide := onToggleSide;
     Sidebar.onToggleVisibility := onToggleVisibility snap;
     Sidebar.onToolChange := fun t => [ setCurrentTool t ];
     Sidebar.onClearBg := [ setBgImage "" ];
     Sidebar.onToggleLabels := onToggleLabels snap;
     Sidebar.onToggleFullscreen := [];
     Sidebar.onAboutClick := [ setShowAbout true ] |}.

(** Props handed to [<SettingsModal ... />]. *)
Definition settingsProps (s : State) : SettingsModal.Props :=
  {| SettingsModal.color := penColor s;
     SettingsModal.width :=
       if tool_eqb (currentTool s) eraser then eraserWidth s else penWidth s;
     SettingsModal.isEraser := tool_eqb (currentTool s) eraser |}.

Definition settingsCallbacks (snap : State) : SettingsModal.Callbacks Effect :=
  {| SettingsModal.onColorChange := fun c => [ setPenColor c ];
     SettingsModal.onWidthChange :=
       fun w => if tool_eqb (currentTool snap) eraser
                then [ setEraserWidth w ] else [ setPenWidth w ];
     SettingsModal.onClose := [ setShowSettings false ] |}.

Inductive PointerKind := Down | Move | Up | Leave.

(** What the user can do to the page. *)
Inductive Input :=
| SidebarInput (c : Sidebar.Control)
| BackdropClick
| SettingsInput (c : SettingsModal.Control)
| AboutCloseClick
| CanvasInput (k : PointerKind) (e : PointerEvent).

(** Whether the element an input addresses is in the tree:
    [{showSettings && (<><div backdrop/><SettingsModal/></>)}], and the
    about panel returns [null] unless open. *)
Definition available (snap : State) (i : Input) : bool :=
  match i with
  | SidebarInput c => Sidebar.rendered (sidebarProps snap) c
  | BackdropClick => showSettings snap
  | SettingsInput c =>
      showSettings snap && SettingsModal.available (settingsProps snap) c
  | AboutCloseClick => showAbout snap
  | CanvasInput _ _ => true
  end.

Definition pointerEvent (k : PointerKind) (e : PointerEvent) : Event :=
  match k with
  | Down => PointerDown e
  | Move => PointerMove e
  | Up => PointerUp e
  | Leave => PointerLeave e
  end.

(** The handler an input reaches, run on the snapshot. *)
Definition handle (snap : State) (i : Input) : list Effect :=
  if negb (available snap i) then []
  else
    match i with
    | SidebarInput c =>
        Sidebar.activate (sidebarProps snap) (sidebarCallbacks snap) c
    | BackdropClick => [ setShowSettings false ]
    | SettingsInput c => SettingsModal.activate (settingsCallbacks snap) c
    | AboutCloseClick => [ setShowAbout false ]
    | CanvasInput k e => App.handle snap (pointerEvent k e)
    end.

Definition dispatch (w : Session) (i : Input) : Session :=
  fold_left apply (handle (state w) i) w.

Definition run (w : Session) (inputs : list Input) : Session :=
  fold_left dispatch inputs w.

(** The same input as events of [App]. *)
Definition lower (snap : State) (i : Input) : list Event :=
  if negb (available snap i) then []
  else
    match i with
    | SidebarInput Sidebar.PenButton =>
        ToolChange pen
          :: (if tool_eqb (currentTool snap) pen then [SettingsClick] else [])
    | SidebarInput Sidebar.EraserButton =>
        ToolChange eraser
          :: (if tool_eqb (currentTool snap) eraser then [SettingsClick]
              else [])
    | SidebarInput Sidebar.SideButton => [ToggleSide]
    | SidebarInput Sidebar.VisibilityButton => [ToggleVisibility]
    | SidebarInput Sidebar.LabelsButton => [ToggleLabels]
    | SidebarInput Sidebar.ClearBgButton => [ClearBg]
    | SidebarInput (Sidebar.UploadInput file) => [UploadImage file]
    | SidebarInput Sidebar.FullscreenButton => [ToggleFullscreen]
    | SidebarInput Sidebar.ClearButton => [ClearClick]
    | SidebarInput Sidebar.AboutButton => [AboutClick]
    | BackdropClick => [SettingsClose]
    | SettingsInput SettingsModal.CloseButton => [SettingsClose]
    | SettingsInput (SettingsModal.WidthSlider v) => [WidthChange v]
    | SettingsInput (SettingsModal.PresetButton c) => [ColorChange c]
    | SettingsInput (SettingsModal.ColorPicker c) => [ColorChange c]
    | AboutCloseClick => [AboutClose]
    | CanvasInput k e => [pointerEvent k e]
    end.

End Shell.

(* ------------------------------------------------------------------ *)
(** * Vocabulary for the properties of the session *)

Module Ink.
Import Types DrawUtils App.

(** A move that continues the gesture: not a mouse move whose button state
    is other than "primary only". *)
Definition held (e : PointerEvent) : bool :=
  negb (String.eqb (pointerType e) "mouse" && negb (Z.eqb (buttons e) 1)).

(** The stroke a pointer-down creates in state [s]. *)
Definition fresh_stroke (s : State) (p : Point) : Stroke :=
  {| points := [p];
     color := penColor s;
     width := if tool_eqb (currentTool s) eraser
              then eraserWidth s else penWidth s;
     isEraser := Some (tool_eqb (currentTool s) eraser) |}.

(** A stroke with more points appended. *)
Definition extend (st : Stroke) (more : list Point) : Stroke :=
  {| points := points st ++ more;
     color := color st;
     width := width st;
     isEraser := isEraser st |}.





(** Events that reach the handlers writing the stroke log or the stroke in
    progress. *)
Definition writes_ink (ev : Event) : bool :=
  match ev with
  | PointerDown _ | PointerMove _ | PointerUp _ | PointerLeave _
  | ClearClick => true
  | _ => false
  end.

Definition is_clear (ev : Event) : bool :=
  match ev with ClearClick => true | _ => false end.

(** Events of the tool settings and the display options: they neither
    write ink nor change the active zone. *)
Definition settings_event (ev : Event) : bool :=
  match ev with
  | PointerDown _ | PointerMove _ | PointerUp _ | PointerLeave _
  | ClearClick | ToggleSide => false
  | _ => true
  end.

(** The data-model conditions on a stroke: at least one point, and the
    eraser flag present. *)
Definition well_formed_stroke (st : Stroke) : bool :=
  match points st, isEraser st with
  | _ :: _, Some _ => true
  | _, _ => false
  end.

(** The stroke's width lies in the range of the slider of its tool. *)
Definition width_in_range (st : Stroke) : bool :=
  PrimFloat.leb 1 (width st)
  && PrimFloat.leb (width st) (if truthy (isEraser st) then 100 else 50).

Definition all_strokes (s : State) : list Stroke :=
  strokes s ++ match currentStroke s with Some cs => [cs] | None => [] end.

Definition stroke_ok (st : Stroke) : bool :=
  well_formed_stroke st && width_in_range st.

(** The invariant of the session's ink and tool settings: both widths lie
    in the range of their slider, and so does every stroke, committed or in
    progress, each of which also has a point and its eraser flag. *)
Definition sound (s : State) : bool :=
  PrimFloat.leb 1 (penWidth s) && PrimFloat.leb (penWidth s) 50
  && PrimFloat.leb 1 (eraserWidth s) && PrimFloat.leb (eraserWidth s) 100
  && forallb stroke_ok (all_strokes s).

(** A width event carrying a value the slider shown in state [s] can
    report. *)
Definition in_slider_range (s : State) (ev : Event) : bool :=
  match ev with
  | WidthChange v =>
      PrimFloat.leb 1 v
      && PrimFloat.leb v (if tool_eqb (currentTool s) eraser then 100 else 50)
  | _ => true
  end.

(** The stroke reflected about the horizontal midline. *)
Definition flip_point (p : Point) : Point :=
  {| x := x p; y := Geometry.mirror_y (y p) |}.

Definition flip_stroke (st : Stroke) : Stroke :=
  {| points := map flip_point (points st);
     color := color st;
     width := width st;
     isEraser := isEraser st |}.

(** A zone's props with every stroke reflected and the zone made the
    active one. *)
Definition flip_props (p : CanvasZone.Props) : CanvasZone.Props :=
  {| CanvasZone.zoneType := CanvasZone.zoneType p;
     CanvasZone.activeZone := CanvasZone.zoneType p;
     CanvasZone.isHidden := false;
     CanvasZone.bgImage := CanvasZone.bgImage p;
     CanvasZone.strokes := map flip_stroke (CanvasZone.strokes p);
     CanvasZone.currentStroke :=
       option_map flip_stroke (CanvasZone.currentStroke p);
     CanvasZone.showLabel := CanvasZone.showLabel p |}.

(** The ratio [render] divides the canvas size by. *)
Definition effective_ratio (devicePixelRatio : number) : number :=
  if truthy_number devicePixelRatio then devicePixelRatio else 1%float.

(** A number that is neither NaN nor infinite. *)
Definition finite (n : number) : bool :=
  match Prim2SF n with
  | S754_zero _ | S754_finite _ _ _ => true
  | _ => false
  end.




End Ink.

(* ------------------------------------------------------------------ *)
(** * Facts about [drawStroke] *)

Section DrawStrokeFacts.
Import Types Canvas DrawUtils Geometry.

Variables (W H : number) (mirror : bool).

Lemma segments_path (rest : list Point) (ctx : Ctx) :
  currentPath (fold_left (segment W H mirror) rest ctx)
  = currentPath ctx ++ map (fun p => line_to (transform p W H mirror)) rest.
Proof.
  revert ctx; induction rest as [|p rest IH]; intros ctx; simpl.
  - now rewrite app_nil_r.
  - rewrite IH; simpl. rewrite <- app_assoc; simpl.
    unfold line_to, transform, mirror_y; simpl. now destruct mirror.
Qed.

Lemma segments_trace (rest : list Point) (ctx : Ctx) :
  trace (fold_left (segment W H mirror) rest ctx)
  = trace ctx ++ map (fun p => line_call (transform p W H mirror)) rest.
Proof.
  revert ctx; induction rest as [|p rest IH]; intros ctx; simpl.
  - now rewrite app_nil_r.
  - rewrite IH; simpl. rewrite <- app_assoc; simpl.
    unfold line_call, transform, mirror_y; simpl. now destruct mirror.
Qed.

Lemma segments_frame (rest : list Point) (ctx : Ctx) :
  lineCap (fold_left (segment W H mirror) rest ctx) = lineCap ctx /\
  lineJoin (fold_left (segment W H mirror) rest ctx) = lineJoin ctx /\
  globalCompositeOperation (fold_left (segment W H mirror) rest ctx)
    = globalCompositeOperation ctx /\
  strokeStyle (fold_left (segment W H mirror) rest ctx) = strokeStyle ctx /\
  lineWidth (fold_left (segment W H mirror) rest ctx) = lineWidth ctx /\
  surface (fold_left (segment W H mirror) rest ctx) = surface ctx.
Proof.
  revert ctx; induction rest as [|p rest IH]; intros ctx; simpl.
  - repeat split.
  - destruct (IH (segment W H mirror ctx p)) as (a & b & c & d & e & f).
    rewrite a, b, c, d, e, f. repeat split.
Qed.

(** [drawStroke] on a stroke with at least one point, field by field. *)
Lemma drawStroke_fields (ctx : Ctx) (s : Stroke) :
  points s <> [] ->
  let ctx' := drawStroke ctx s W H mirror in
  lineCap ctx' = "round" /\
  lineJoin ctx' = "round" /\
  globalCompositeOperation ctx' = "source-over" /\
  strokeStyle ctx' = style_of s /\
  lineWidth ctx' = width s /\
  currentPath ctx' = path_of (points s) W H mirror /\
  surface ctx' = surface ctx ++ paint_of s W H mirror /\
  trace ctx' = trace ctx ++ calls_of s W H mirror.
Proof.
  intros Hne. unfold drawStroke, paint_of, calls_of, composite_of, style_of.
  destruct (points s) as [|p0 rest] eqn:Hp; [congruence|].
  destruct rest as [|p1 rest].
  - destruct (truthy (isEraser s)); simpl;
      unfold line_call, transform, move_to, line_to, mirror_y; simpl;
      destruct mirror; simpl;
      repeat rewrite <- app_assoc; simpl; repeat split.
  - fold (segment W H mirror).
    set (c0 := moveTo _ _ _).
    destruct (segments_frame (p1 :: rest) c0) as (a & b & c & d & e & f).
    pose proof (segments_path (p1 :: rest) c0) as Hpath.
    pose proof (segments_trace (p1 :: rest) c0) as Htr.
    cbv zeta.
    unfold Canvas.stroke, set_globalCompositeOperation; cbn [lineCap lineJoin
      globalCompositeOperation strokeStyle lineWidth currentPath surface trace].
    rewrite a, b, c, d, e, f, Hpath, Htr.
    subst c0.
    destruct (truthy (isEraser s)); simpl;
      unfold transform, move_to, line_to, mirror_y; simpl;
      destruct mirror; simpl;
      repeat rewrite <- app_assoc; simpl; repeat split.
Qed.

Lemma drawStroke_empty (ctx : Ctx) (s : Stroke) :
  points s = [] -> drawStroke ctx s W H mirror = ctx.
Proof. intros Hp. unfold drawStroke. now rewrite Hp. Qed.

Lemma drawStroke_surface (ctx : Ctx) (s : Stroke) :
  surface (drawStroke ctx s W H mirror) = surface ctx ++ paint_of s W H mirror.
Proof.
  destruct (points s) as [|p0 rest] eqn:Hp.
  - rewrite drawStroke_empty by assumption.
    unfold paint_of. rewrite Hp. now rewrite app_nil_r.
  - apply drawStroke_fields. congruence.
Qed.

Lemma drawStroke_trace (ctx : Ctx) (s : Stroke) :
  trace (drawStroke ctx s W H mirror) = trace ctx ++ calls_of s W H mirror.
Proof.
  destruct (points s) as [|p0 rest] eqn:Hp.
  - rewrite drawStroke_empty by assumption.
    unfold calls_of. rewrite Hp. now rewrite app_nil_r.
  - apply drawStroke_fields. congruence.
Qed.

(** Drawing a whole log. *)
Lemma drawStrokes_surface (log : list Stroke) (ctx : Ctx) :
  surface (fold_left (fun c s => drawStroke c s W H mirror) log ctx)
  = surface ctx ++ flat_map (fun s => paint_of s W H mirror) log.
Proof.
  revert ctx; induction log as [|s log IH]; intros ctx; simpl.
  - now rewrite app_nil_r.
  - rewrite IH, drawStroke_surface. now rewrite <- app_assoc.
Qed.

Lemma drawStrokes_trace (log : list Stroke) (ctx : Ctx) :
  trace (fold_left (fun c s => drawStroke c s W H mirror) log ctx)
  = trace ctx ++ flat_map (fun s => calls_of s W H mirror) log.
Proof.
  revert ctx; induction log as [|s log IH]; intros ctx; simpl.
  - now rewrite app_nil_r.
  - rewrite IH, drawStroke_trace. now rewrite <- app_assoc.
Qed.

Lemma skipn_app_exact {A : Type} (l k : list A) :
  skipn (List.length l) (l ++ k) = k.
Proof. induction l; simpl; auto. Qed.

Lemma painted_by_drawStroke (ctx : Ctx) (s : Stroke) :
  painted_by (fun c => drawStroke c s W H mirror) ctx = paint_of s W H mirror.
Proof.
  unfold painted_by. rewrite drawStroke_surface. apply skipn_app_exact.
Qed.

Lemma called_by_drawStroke (ctx : Ctx) (s : Stroke) :
  called_by (fun c => drawStroke c s W H mirror) ctx = calls_of s W H mirror.
Proof.
  unfold called_by. rewrite drawStroke_trace. apply skipn_app_exact.
Qed.

End DrawStrokeFacts.

(* ------------------------------------------------------------------ *)
(** * Facts about [CanvasZone.render] *)

Section RenderFacts.
Import Types Canvas DrawUtils Geometry CanvasZone.

Lemma render_ctx_hidden (p : Props) (cw ch dpr : number) (ctx : Ctx) :
  shouldShowContent p = false ->
  render_ctx p cw ch dpr ctx = clearRect 0%float 0%float cw ch ctx.
Proof. intros Hs. unfold render_ctx. now rewrite Hs. Qed.

Lemma render_ctx_surface (p : Props) (cw ch dpr : number) (ctx : Ctx) :
  shouldShowContent p = true ->
  let d := if truthy_number dpr then dpr else 1%float in
  let W := (cw / d)%float in
  let H := (ch / d)%float in
  surface (render_ctx p cw ch dpr ctx)
  = surface ctx
      ++ Cleared 0%float 0%float cw ch
      :: flat_map (fun s => paint_of s W H (isMirror p)) (strokes p)
      ++ match currentStroke p with
         | Some cs => paint_of cs W H (isMirror p)
         | None => []
         end.
Proof.
  intros Hs d W H. unfold render_ctx. rewrite Hs. cbv zeta. fold d W H.
  cbn [negb].
  destruct (currentStroke p) as [cs|].
  - rewrite drawStroke_surface, drawStrokes_surface. simpl.
    now rewrite <- !app_assoc.
  - rewrite drawStrokes_surface. simpl.
    now rewrite app_nil_r, <- !app_assoc.
Qed.

Lemma render_ctx_trace (p : Props) (cw ch dpr : number) (ctx : Ctx) :
  shouldShowContent p = true ->
  let d := if truthy_number dpr then dpr else 1%float in
  let W := (cw / d)%float in
  let H := (ch / d)%float in
  trace (render_ctx p cw ch dpr ctx)
  = trace ctx
      ++ CallClearRect 0%float 0%float cw ch
      :: flat_map (fun s => calls_of s W H (isMirror p)) (strokes p)
      ++ match currentStroke p with
         | Some cs => calls_of cs W H (isMirror p)
         | None => []
         end.
Proof.
  intros Hs d W H. unfold render_ctx. rewrite Hs. cbv zeta. fold d W H.
  cbn [negb].
  destruct (currentStroke p) as [cs|].
  - rewrite drawStroke_trace, drawStrokes_trace. simpl.
    now rewrite <- !app_assoc.
  - rewrite drawStrokes_trace. simpl.
    now rewrite app_nil_r, <- !app_assoc.
Qed.

(** [render] itself: nothing happens without a canvas or a context;
    otherwise the context goes through [render_ctx] and the element keeps
    its size. *)
Lemma render_cases (p : Props) (dpr : number) :
  render p None dpr = None /\
  (forall canvas, context2d canvas = None ->
                  render p (Some canvas) dpr = Some canvas) /\
  (forall canvas ctx,
      context2d canvas = Some ctx ->
      render p (Some canvas) dpr
      = Some {| canvas_width := canvas_width canvas;
                canvas_height := canvas_height canvas;
                context2d :=
                  Some (render_ctx p (canvas_width canvas)
                          (canvas_height canvas) dpr ctx) |}).
Proof.
  split; [reflexivity|]. split.
  - intros canvas Hc. unfold render. now rewrite Hc.
  - intros canvas ctx Hc. unfold render. now rewrite Hc.
Qed.

End RenderFacts.

(* ------------------------------------------------------------------ *)
(** * Facts about the session *)

Section SessionFacts.
Import Types DrawUtils App.

Lemma zone_eqb_refl (z : ActiveZone) : zone_eqb z z = true.
Proof. now destruct z. Qed.

Lemma zone_eqb_eq (a b : ActiveZone) : zone_eqb a b = true <-> a = b.
Proof. destruct a, b; simpl; split; congruence. Qed.

Lemma accepted_inv (w : Session) (e : PointerEvent) :
  accepted w e = true ->
  currentTarget e = activeZone (state w) /\
  (String.eqb (pointerType e) "mouse" && negb (Z.eqb (buttons e) 1)) = false.
Proof.
  unfold accepted. intros Ha. apply andb_true_iff in Ha as [Hz Hm].
  apply zone_eqb_eq in Hz. apply negb_true_iff in Hm. now split.
Qed.

(** An accepted pointer-down, whatever the state. *)
Lemma dispatch_down (w : Session) (e : PointerEvent) :
  accepted w e = true ->
  dispatch w (PointerDown e)
  = {| state :=
         with_currentStroke
           (Some {| points := [getNormalizedPoint e];
                    color := penColor (state w);
                    width := if tool_eqb (currentTool (state w)) eraser
                             then eraserWidth (state w)
                             else penWidth (state w);
                    isEraser :=
                      Some (tool_eqb (currentTool (state w)) eraser) |})
           (state w);
       captures :=
         (pointerId e, currentTarget e)
           :: filter (fun c => negb (Z.eqb (fst c) (pointerId e)))
                (captures w) |}.
Proof.
  intros Ha. apply accepted_inv in Ha as [Hz Hm].
  unfold dispatch, handle, CanvasZone.handlePointerDown,
    CanvasZone.isActiveWritingZone, handlePointerDown.
  cbn [zoneProps CanvasZone.activeZone CanvasZone.zoneType].
  assert (Ht : zone_eqb (activeZone (state w)) (currentTarget e) = true)
    by (rewrite Hz; apply zone_eqb_refl).
  rewrite Ht, Hm. reflexivity.
Qed.

(** Pointer-up or pointer-leave on the active zone's canvas while a stroke
    is in progress. *)
Lemma dispatch_up (w : Session) (e : PointerEvent) (cs : Stroke) :
  currentTarget e = activeZone (state w) ->
  currentStroke (state w) = Some cs ->
  dispatch w (PointerUp e)
  = {| state :=
         with_currentStroke None
           (with_strokes (strokes (state w) ++ [cs]) (state w));
       captures :=
         filter (fun c => negb (Z.eqb (fst c) (pointerId e)
                                && zone_eqb (snd c) (currentTarget e)))
           (captures w) |}
  /\ dispatch w (PointerLeave e) = dispatch w (PointerUp e).
Proof.
  intros Hz Hc.
  unfold dispatch, handle, CanvasZone.pointerUpListener,
    CanvasZone.pointerLeaveListener, CanvasZone.isActiveWritingZone,
    handlePointerUp.
  cbn [zoneProps CanvasZone.activeZone CanvasZone.zoneType].
  assert (Ht : zone_eqb (activeZone (state w)) (currentTarget e) = true)
    by (rewrite Hz; apply zone_eqb_refl).
  rewrite Ht, Hc. split; reflexivity.
Qed.

(** With no stroke in progress, move, up and leave change nothing. *)
Lemma dispatch_idle (w : Session) (e : PointerEvent) :
  currentStroke (state w) = None ->
  dispatch w (PointerMove e) = w /\
  dispatch w (PointerUp e) = w /\
  dispatch w (PointerLeave e) = w.
Proof.
  intros Hc.
  unfold dispatch, handle, CanvasZone.handlePointerMove,
    CanvasZone.pointerUpListener, CanvasZone.pointerLeaveListener,
    CanvasZone.isActiveWritingZone, handlePointerMove, handlePointerUp.
  cbn [zoneProps CanvasZone.activeZone CanvasZone.zoneType].
  rewrite Hc.
  destruct (zone_eqb (activeZone (state w)) (currentTarget e)); simpl;
    repeat split.
Qed.

(** Only the side toggle writes the active zone. *)
Lemma apply_keeps_activeZone (eff : Effect) (w : Session) :
  (forall f, eff <> setActiveZone f) ->
  activeZone (state (apply w eff)) = activeZone (state w).
Proof.
  intros Hne. destruct eff; simpl; try reflexivity.
  now destruct (Hne f).
Qed.

Lemma fold_apply_keeps_activeZone (effs : list Effect) (w : Session) :
  Forall (fun eff => forall f, eff <> setActiveZone f) effs ->
  activeZone (state (fold_left apply effs w)) = activeZone (state w).
Proof.
  revert w; induction effs as [|eff effs IH]; intros w Hall; simpl.
  - reflexivity.
  - inversion Hall; subst. rewrite IH by assumption.
    now apply apply_keeps_activeZone.
Qed.

Lemma handle_no_setActiveZone (snap : State) (ev : Event) :
  ev <> ToggleSide ->
  Forall (fun eff => forall f, eff <> setActiveZone f) (handle snap ev).
Proof.
  intros Hev.
  destruct ev; try congruence; simpl;
    unfold CanvasZone.handlePointerDown, CanvasZone.handlePointerMove,
      CanvasZone.pointerUpListener, CanvasZone.pointerLeaveListener,
      handlePointerDown, handlePointerMove, handlePointerUp,
      handleImageUpload, handleClearStrokes, onToggleVisibility,
      onToggleLabels, onWidthChange;
    repeat match goal with
           | |- context [if ?b then _ else _] => destruct b
           | |- context [match ?o with Some _ => _ | None => _ end] =>
               destruct o
           end;
    repeat constructor; intros; discriminate.
Qed.

End SessionFacts.

(* ------------------------------------------------------------------ *)
(** * The stroke-capture state machine *)

Section CaptureProperties.
Import Types DrawUtils App Scenario.

(** C2. An accepted pointer-down on the active zone creates an in-progress
    stroke with exactly one point, the normalised down position, and the
    current tool's attributes, leaving the log alone; a pointer-up on the
    active zone appends whatever stroke is in progress to the end of the
    log and leaves no stroke in progress; so from an empty log one
    down/up gesture yields a log of length 1 and no in-progress stroke. *)
Theorem pointer_down_then_up_commits (w : Session) (d u : PointerEvent) :
  accepted w d = true ->
  currentTarget u = activeZone (state w) ->
  let one :=
    {| points := [getNormalizedPoint d];
       color := penColor (state w);
       width := if tool_eqb (currentTool (state w)) eraser
                then eraserWidth (state w) else penWidth (state w);
       isEraser := Some (tool_eqb (currentTool (state w)) eraser) |} in
  let w1 := dispatch w (PointerDown d) in
  let w2 := dispatch w1 (PointerUp u) in
  (currentStroke (state w1) = Some one /\
   strokes (state w1) = strokes (state w)) /\
  (forall (v : Session) (cs : Stroke),
      currentStroke (state v) = Some cs ->
      currentTarget u = activeZone (state v) ->
      strokes (state (dispatch v (PointerUp u))) = strokes (state v) ++ [cs]
      /\ currentStroke (state (dispatch v (PointerUp u))) = None) /\
  (strokes (state w2) = strokes (state w) ++ [one] /\
   currentStroke (state w2) = None) /\
  (strokes (state w) = [] ->
   List.length (strokes (state w2)) = 1%nat /\
   currentStroke (state w2) = None).
Proof.
  intros Ha Hu one w1 w2.
  assert (H1 : currentStroke (state w1) = Some one /\
               strokes (state w1) = strokes (state w) /\
               activeZone (state w1) = activeZone (state w)).
  { subst w1. rewrite dispatch_down by assumption. repeat split. }
  destruct H1 as (Hc1 & Hs1 & Hz1).
  assert (Hup : forall (v : Session) (cs : Stroke),
             currentStroke (state v) = Some cs ->
             currentTarget u = activeZone (state v) ->
             strokes (state (dispatch v (PointerUp u)))
             = strokes (state v) ++ [cs]
             /\ currentStroke (state (dispatch v (PointerUp u))) = None).
  { intros v cs Hc Hz. destruct (dispatch_up v u cs Hz Hc) as [-> _].
    split; reflexivity. }
  assert (H2 : strokes (state w2) = strokes (state w) ++ [one] /\
               currentStroke (state w2) = None).
  { subst w2. rewrite <- Hs1. apply Hup; [assumption | congruence]. }
  split; [now split|]. split; [exact Hup|]. split; [exact H2|].
  intros Hempty. destruct H2 as [Hlog Hcur]. split; [|exact Hcur].
  rewrite Hlog, Hempty. reflexivity.
Qed.

Lemma pointer_down_then_up_commits_witness :
  strokes (state (run (initial "") [PointerDown down_center;
                                    PointerUp up_center]))
  = [dot_stroke]
  /\ currentStroke (state (run (initial "") [PointerDown down_center;
                                             PointerUp up_center])) = None.
Proof.
  destruct (pointer_down_then_up_commits (initial "") down_center up_center
              eq_refl eq_refl) as (_ & _ & [Hlog Hcur] & _).
  split; [exact Hlog | exact Hcur].
Defined.

(** C10. An accepted pointer-down while a stroke is already in progress
    replaces that stroke by a fresh one-point stroke and commits nothing:
    the log is unchanged, and the session after the pointer-down, hence
    after any further events, is the same whatever the replaced stroke
    was, so its points can never reach the log. *)
Theorem pointer_down_discards_stroke_in_progress
        (w : Session) (e : PointerEvent) (old : Stroke) :
  currentStroke (state w) = Some old ->
  accepted w e = true ->
  let w' := dispatch w (PointerDown e) in
  strokes (state w') = strokes (state w) /\
  (exists fresh,
      currentStroke (state w') = Some fresh /\
      points fresh = [getNormalizedPoint e]) /\
  (forall (other : option Stroke) (evs : list Event),
      run (replace_current other w) (PointerDown e :: evs)
      = run w (PointerDown e :: evs)).
Proof.
  intros Hold Ha w'. subst w'. rewrite dispatch_down by assumption.
  split; [reflexivity|]. split.
  - eexists; split; reflexivity.
  - intros other evs. simpl.
    rewrite (dispatch_down w e Ha).
    rewrite (dispatch_down (replace_current other w) e) by exact Ha.
    reflexivity.
Qed.

Lemma pointer_down_discards_stroke_in_progress_witness :
  strokes (state (dispatch drawing (PointerDown touch_down))) = [] /\
  strokes (state (run drawing [PointerDown touch_down; PointerUp up_center]))
  = [ {| points := [ {| x := 0.25%float; y := 0.75%float |} ];
         color := "#000000"; width := 4%float; isEraser := Some false |} ].
Proof.
  destruct (pointer_down_discards_stroke_in_progress drawing touch_down
              dot_stroke eq_refl eq_refl) as (Hlog & _ & _).
  split; [exact Hlog | reflexivity].
Defined.

(** C1, as the code has it. The clear action empties the stroke log and
    also discards the stroke in progress: clearing cancels an active
    gesture.  A pointer-move, pointer-up or pointer-leave that follows
    without a new pointer-down changes nothing, so the log stays empty. *)
Theorem clear_discards_log_and_gesture (w : Session) (e : PointerEvent) :
  let w' := dispatch w ClearClick in
  strokes (state w') = [] /\
  currentStroke (state w') = None /\
  dispatch w' (PointerMove e) = w' /\
  dispatch w' (PointerUp e) = w' /\
  dispatch w' (PointerLeave e) = w'.
Proof.
  intros w'.
  assert (Hc : currentStroke (state w') = None) by reflexivity.
  split; [reflexivity|]. split; [exact Hc|].
  now apply dispatch_idle.
Qed.

(** C1 as stated fails: with a gesture in progress, the clear action does
    not leave the in-progress stroke in place, and the pointer-up that
    ends the gesture commits nothing. *)
Lemma clear_keeps_gesture_counterexample :
  currentStroke (state drawing) = Some dot_stroke /\
  currentStroke (state (dispatch drawing ClearClick))
    <> currentStroke (state drawing) /\
  strokes (state (run drawing [ClearClick; PointerUp up_center]))
    <> [dot_stroke].
Proof.
  split; [reflexivity|]. split; intro Hc; discriminate Hc.
Qed.

End CaptureProperties.

(* ------------------------------------------------------------------ *)
(** * Zones: mirroring and visibility *)

Section ZoneProperties.
Import Types Canvas DrawUtils Geometry CanvasZone App Scenario.

(** C9. In every state reached from the initial one, the active zone is
    TOP or BOTTOM; the side toggle flips it and no other event changes it;
    each zone's mirror flag is (zone tag <> active tag), so the two zones'
    flags are opposite: exactly one zone renders mirrored, the active one
    never does. *)
Theorem active_zone_invariant (img : string) (evs : list Event) :
  let w := run (initial img) evs in
  (App.activeZone (state w) = TOP \/ App.activeZone (state w) = BOTTOM) /\
  (forall z, isMirror (zone w z) = negb (zone_eqb z (App.activeZone (state w)))) /\
  isMirror (zone w TOP) = negb (isMirror (zone w BOTTOM)) /\
  isMirror (zone w (App.activeZone (state w))) = false /\
  App.activeZone (state (dispatch w ToggleSide))
    = (match App.activeZone (state w) with TOP => BOTTOM | BOTTOM => TOP end) /\
  (forall ev, ev <> ToggleSide ->
              App.activeZone (state (dispatch w ev)) = App.activeZone (state w)).
Proof.
  intros w. generalize w; clear w; intros w.
  split; [destruct (App.activeZone (state w)); auto|].
  split; [intros z; unfold isMirror, zone; simpl;
          now destruct z, (App.activeZone (state w))|].
  split; [unfold isMirror, zone; simpl;
          now destruct (App.activeZone (state w))|].
  split; [unfold isMirror, zone; simpl;
          now destruct (App.activeZone (state w))|].
  split; [reflexivity|].
  intros ev Hev. unfold dispatch.
  apply fold_apply_keeps_activeZone. now apply handle_no_setActiveZone.
Qed.

(** C8. With showContent = not (zone is active and hidden flag set): when
    showContent is false the render clears the surface and draws nothing
    else, neither strokes on the canvas nor the background image element.
    With BOTTOM active and the hidden flag set, the BOTTOM zone shows
    nothing, while the TOP zone is mirrored, shows content, and paints
    every committed stroke (then the in-progress one) with the mirror
    transform. *)
Theorem hidden_zone_only_clears (p : Props) (cw ch dpr : number) (ctx : Ctx) :
  shouldShowContent p = negb (zone_eqb (CanvasZone.activeZone p) (zoneType p)
                              && isHidden p) /\
  (shouldShowContent p = false ->
   painted_by (render_ctx p cw ch dpr) ctx = [Cleared 0%float 0%float cw ch] /\
   called_by (render_ctx p cw ch dpr) ctx
     = [CallClearRect 0%float 0%float cw ch] /\
   background (view p) = None) /\
  (forall w : Session,
      App.activeZone (state w) = BOTTOM ->
      hideActiveZone (state w) = true ->
      let d := if truthy_number dpr then dpr else 1%float in
      let W := (cw / d)%float in
      let H := (ch / d)%float in
      painted_by (render_ctx (zone w BOTTOM) cw ch dpr) ctx
        = [Cleared 0%float 0%float cw ch] /\
      background (view (zone w BOTTOM)) = None /\
      isMirror (zone w TOP) = true /\
      painted_by (render_ctx (zone w TOP) cw ch dpr) ctx
        = Cleared 0%float 0%float cw ch
          :: flat_map (fun s => paint_of s W H true) (App.strokes (state w))
          ++ match App.currentStroke (state w) with
             | Some cs => paint_of cs W H true
             | None => []
             end).
Proof.
  assert (Hhid : forall q, shouldShowContent q = false ->
             painted_by (render_ctx q cw ch dpr) ctx
               = [Cleared 0%float 0%float cw ch] /\
             called_by (render_ctx q cw ch dpr) ctx
               = [CallClearRect 0%float 0%float cw ch] /\
             background (view q) = None).
  { intros q Hs. unfold painted_by, called_by, view.
    rewrite render_ctx_hidden by assumption. simpl.
    rewrite !skipn_app_exact, Hs, andb_false_r. repeat split. }
  split; [reflexivity|]. split; [apply Hhid|].
  intros w Hz Hh d W H.
  assert (Hb : shouldShowContent (zone w BOTTOM) = false).
  { unfold shouldShowContent, isActiveWritingZone, zone; simpl.
    now rewrite Hz, Hh. }
  assert (Ht : shouldShowContent (zone w TOP) = true).
  { unfold shouldShowContent, isActiveWritingZone, zone; simpl.
    now rewrite Hz. }
  assert (Hm : isMirror (zone w TOP) = true).
  { unfold isMirror, zone; simpl. now rewrite Hz. }
  destruct (Hhid _ Hb) as (Hp & _ & Hbg).
  split; [exact Hp|]. split; [exact Hbg|]. split; [exact Hm|].
  unfold painted_by.
  rewrite (render_ctx_surface (zone w TOP) cw ch dpr ctx Ht).
  rewrite skipn_app_exact, Hm. reflexivity.
Qed.

Lemma hidden_zone_only_clears_witness :
  painted_by (render_ctx (zone blind BOTTOM) 200%float 100%float 2%float)
    fresh
  = [Cleared 0%float 0%float 200%float 100%float] /\
  painted_by (render_ctx (zone blind TOP) 200%float 100%float 2%float) fresh
  = [ Cleared 0%float 0%float 200%float 100%float;
      Stroked [MoveTo 50%float 25%float; LineTo 50%float 25%float]
        "round" "round" "source-over" "#000000" 4%float;
      Stroked [MoveTo 25%float 37.5%float; LineTo 50%float 12.5%float;
               LineTo 100%float 50%float]
        "round" "round" "source-over" "#ff0000" 4%float ].
Proof.
  destruct (hidden_zone_only_clears (zone blind BOTTOM) 200%float 100%float
              2%float fresh) as (_ & Hhid & Hscen).
  destruct (Hscen blind eq_refl eq_refl) as (Hb & _ & _ & Ht).
  split; [exact (proj1 (Hhid eq_refl)) | exact Ht].
Defined.

(** C5. Whenever content is shown, the render clears, then paints the
    committed strokes in log order (oldest first), then the in-progress
    stroke, if any, last.  What is painted and called is a function of the
    log, the in-progress stroke and the zone state alone: it does not
    depend on the state the context was left in. *)
Theorem render_paints_in_commit_order
        (p : Props) (cw ch dpr : number) (ctx : Ctx) :
  shouldShowContent p = true ->
  let d := if truthy_number dpr then dpr else 1%float in
  let W := (cw / d)%float in
  let H := (ch / d)%float in
  painted_by (render_ctx p cw ch dpr) ctx
    = Cleared 0%float 0%float cw ch
      :: flat_map (fun s => paint_of s W H (isMirror p)) (CanvasZone.strokes p)
      ++ match CanvasZone.currentStroke p with
         | Some cs => paint_of cs W H (isMirror p)
         | None => []
         end /\
  called_by (render_ctx p cw ch dpr) ctx
    = CallClearRect 0%float 0%float cw ch
      :: flat_map (fun s => calls_of s W H (isMirror p)) (CanvasZone.strokes p)
      ++ match CanvasZone.currentStroke p with
         | Some cs => calls_of cs W H (isMirror p)
         | None => []
         end /\
  (forall ctx' : Ctx,
      painted_by (render_ctx p cw ch dpr) ctx'
        = painted_by (render_ctx p cw ch dpr) ctx /\
      called_by (render_ctx p cw ch dpr) ctx'
        = called_by (render_ctx p cw ch dpr) ctx).
Proof.
  intros Hs d W H.
  assert (Hp : forall c, painted_by (render_ctx p cw ch dpr) c
             = Cleared 0%float 0%float cw ch
               :: flat_map (fun s => paint_of s W H (isMirror p))
                    (CanvasZone.strokes p)
               ++ match CanvasZone.currentStroke p with
                  | Some cs => paint_of cs W H (isMirror p)
                  | None => []
                  end).
  { intros c. unfold painted_by.
    rewrite (render_ctx_surface p cw ch dpr c Hs). apply skipn_app_exact. }
  assert (Hc : forall c, called_by (render_ctx p cw ch dpr) c
             = CallClearRect 0%float 0%float cw ch
               :: flat_map (fun s => calls_of s W H (isMirror p))
                    (CanvasZone.strokes p)
               ++ match CanvasZone.currentStroke p with
                  | Some cs => calls_of cs W H (isMirror p)
                  | None => []
                  end).
  { intros c. unfold called_by.
    rewrite (render_ctx_trace p cw ch dpr c Hs). apply skipn_app_exact. }
  split; [apply Hp|]. split; [apply Hc|].
  intros ctx'. now rewrite !Hp, !Hc.
Qed.

Lemma render_paints_in_commit_order_witness :
  painted_by
    (render_ctx
       {| zoneType := BOTTOM; CanvasZone.activeZone := BOTTOM;
          isHidden := false; CanvasZone.bgImage := "";
          CanvasZone.strokes := [line_stroke; eraser_dot "#123456"];
          CanvasZone.currentStroke := Some dot_stroke; showLabel := true |}
       100%float 100%float 0%float) fresh
  = [ Cleared 0%float 0%float 100%float 100%float;
      Stroked [MoveTo 25%float 25%float; LineTo 50%float 75%float;
               LineTo 100%float 0%float]
        "round" "round" "source-over" "#ff0000" 4%float;
      Stroked [MoveTo 50%float 50%float; LineTo 50%float 50%float]
        "round" "round" "destination-out" "rgba(0,0,0,1)" 20%float;
      Stroked [MoveTo 50%float 50%float; LineTo 50%float 50%float]
        "round" "round" "source-over" "#000000" 4%float ].
Proof.
  exact (proj1 (render_paints_in_commit_order
                  {| zoneType := BOTTOM; CanvasZone.activeZone := BOTTOM;
                     isHidden := false; CanvasZone.bgImage := "";
                     CanvasZone.strokes := [line_stroke; eraser_dot "#123456"];
                     CanvasZone.currentStroke := Some dot_stroke;
                     showLabel := true |}
                  100%float 100%float 0%float fresh eq_refl)).
Defined.

End ZoneProperties.


(* ------------------------------------------------------------------ *)
(** * Binary64 subtraction from one, on the 2^-53 grid *)

(** [1 - v] on doubles is [SFsub] on their representations ([sub_spec]).
    The lemmas follow [SFsub] through its steps: alignment of the two
    mantissas ([shl_align]), the integer difference, and rounding to 53 bits
    ([binary_round], [shr_fexp], [round_nearest_even]).  Values are compared
    as integers after scaling by 2^105. *)

Section Binary64Facts.
Import Types Geometry.
Local Open Scope Z_scope.


(** The number of binary digits of a mantissa. *)
Lemma digits2_pos_size (p : positive) : digits2_pos p = Pos.size p.
Proof. induction p; simpl; congruence. Qed.

Lemma digits2_bounds (p : positive) :
  2 ^ (Z.pos (digits2_pos p) - 1) <= Z.pos p < 2 ^ Z.pos (digits2_pos p).
Proof.
  rewrite digits2_pos_size.
  pose proof (Pos.size_gt p) as Hgt. pose proof (Pos.size_le p) as Hle.
  apply Pos2Z.pos_lt_pos in Hgt. apply Pos2Z.pos_le_pos in Hle.
  rewrite Pos2Z.inj_pow in Hgt, Hle.
  change (Z.pos p~0) with (2 * Z.pos p) in Hle.
  assert (Hs : Z.pos (Pos.size p) = Z.succ (Z.pos (Pos.size p) - 1)) by lia.
  rewrite Hs in Hle at 1. rewrite Z.pow_succ_r in Hle by lia.
  lia.
Qed.

Lemma digits2_unique (p : positive) (d : Z) :
  2 ^ (d - 1) <= Z.pos p < 2 ^ d -> Z.pos (digits2_pos p) = d.
Proof.
  intros [Hlo Hhi]. destruct (digits2_bounds p) as [Hlo' Hhi'].
  assert (Hd : 0 < d).
  { destruct (Z.ltb_spec 0 d) as [|Hle]; auto.
    assert (d = 0 \/ d < 0) as [->|Hn] by lia.
    - simpl in Hhi. lia.
    - rewrite (Z.pow_neg_r 2 d) in Hhi by lia. lia. }
  set (D := Z.pos (digits2_pos p)) in *.
  destruct (Z.lt_trichotomy D d) as [Hlt|[Heq|Hgt]]; auto.
  - assert (2 ^ D <= 2 ^ (d - 1)) by (apply Z.pow_le_mono_r; lia). lia.
  - assert (2 ^ d <= 2 ^ (D - 1)) by (apply Z.pow_le_mono_r; lia). lia.
Qed.

(** Shifting left multiplies by a power of two. *)
Lemma iter_xO_pow (m d : positive) :
  Z.pos (Pos.iter xO m d) = Z.pos m * 2 ^ Z.pos d.
Proof.
  induction d as [|d IH] using Pos.peano_ind.
  - simpl. lia.
  - rewrite Pos.iter_succ, Pos2Z.inj_xO, IH, Pos2Z.inj_succ.
    rewrite Z.pow_succ_r by lia. lia.
Qed.

(** The two iterators agree. *)
Lemma iter_pos_iter {A : Type} (f : A -> A) (n : positive) (a : A) :
  SpecFloat.iter_pos f n a = Pos.iter f a n.
Proof.
  revert a. induction n as [n IH|n IH|]; intros a; simpl.
  - rewrite !IH. now rewrite <- !Pos.iter_swap.
  - now rewrite !IH.
  - reflexivity.
Qed.


(** Shifting right an even mantissa loses nothing. *)
Lemma shr_1_even (m : Z) :
  0 < m -> (2 | m) -> shr_1 (exact_rec m) = exact_rec (m / 2).
Proof.
  intros Hpos [k Hk]. subst m.
  rewrite Z.div_mul by lia.
  destruct k as [|k|k]; try lia.
  replace (Z.pos k * 2) with (Z.pos k~0) by lia.
  reflexivity.
Qed.

Lemma iter_shr_1_exact (n : positive) (m : Z) :
  0 < m -> (2 ^ Z.pos n | m) ->
  SpecFloat.iter_pos shr_1 n (exact_rec m) = exact_rec (m / 2 ^ Z.pos n).
Proof.
  rewrite iter_pos_iter. revert m.
  induction n as [|n IH] using Pos.peano_ind; intros m Hpos Hdiv.
  - simpl Pos.iter. apply shr_1_even; auto.
  - rewrite Pos.iter_succ.
    destruct Hdiv as [k Hk].
    rewrite Pos2Z.inj_succ, Z.pow_succ_r in * by lia.
    rewrite IH; [| lia | exists (k * 2); lia].
    assert (Hq : m / 2 ^ Z.pos n = k * 2).
    { subst m. replace (k * (2 * 2 ^ Z.pos n)) with (k * 2 * 2 ^ Z.pos n) by ring.
      apply Z.div_mul. apply Z.pow_nonzero; lia. }
    rewrite Hq, shr_1_even; [| nia | exists k; lia].
    f_equal. subst m.
    rewrite Z.div_mul by lia.
    symmetry. apply Z.div_mul.
    assert (0 < 2 ^ Z.pos n) by (apply Z.pow_pos_nonneg; lia). lia.
  Qed.


(** The exponent function in the normal range. *)
Lemma fexp_normal (z : Z) : -1074 <= z - 53 -> fexp prec emax z = z - 53.
Proof. intros Hz. unfold fexp, SpecFloat.emin, prec, emax. lia. Qed.

(** No shift is needed when the mantissa already has 53 digits. *)
Lemma shr_fexp_53 (m : positive) (e : Z) :
  Z.pos (digits2_pos m) = 53 -> -1074 <= e ->
  shr_fexp prec emax (Z.pos m) e loc_Exact = (exact_rec (Z.pos m), e).
Proof.
  intros Hd He. unfold shr_fexp, Zdigits2. rewrite Hd.
  rewrite fexp_normal by lia.
  replace (53 + e - 53 - e) with 0 by lia. reflexivity.
Qed.

Lemma binary_round_aux_53 (m : positive) (e : Z) :
  Z.pos (digits2_pos m) = 53 -> -1074 <= e <= 971 ->
  binary_round_aux prec emax false (Z.pos m) e loc_Exact = S754_finite false m e.
Proof.
  intros Hd He. unfold binary_round_aux.
  rewrite shr_fexp_53 by (auto; lia). cbn [exact_rec shr_m loc_of_shr_record round_nearest_even].
  rewrite shr_fexp_53 by (auto; lia). cbn [exact_rec shr_m].
  replace (e <=? emax - prec) with true; [reflexivity|].
  symmetry. apply Z.leb_le. unfold emax, prec. lia.
Qed.

(** Rounding a mantissa with too many digits whose low bits are all zero. *)
Lemma binary_round_aux_exact (M : positive) (e : Z) :
  let D := Z.pos (digits2_pos M) in
  53 <= D -> (2 ^ (D - 53) | Z.pos M) -> -1074 <= e -> e + D - 53 <= 971 ->
  exists M1 : positive,
    binary_round_aux prec emax false (Z.pos M) e loc_Exact
    = S754_finite false M1 (e + D - 53) /\
    Z.pos (digits2_pos M1) = 53 /\
    Z.pos M1 * 2 ^ (D - 53) = Z.pos M.
Proof.
  intros D HD Hdiv Hlo Hhi.
  destruct (Z.eq_dec D 53) as [Heq|Hne].
  - exists M. rewrite Heq in *. replace (e + 53 - 53) with e by lia.
    split; [apply binary_round_aux_53; auto; lia|].
    split; [exact Heq|]. simpl. lia.
  - assert (Hn : 0 < D - 53) by lia.
    destruct (D - 53) as [|n|n] eqn:Hn'; try lia.
    destruct Hdiv as [k Hk].
    assert (Hpow : 0 < 2 ^ Z.pos n) by (apply Z.pow_pos_nonneg; lia).
    assert (Hkpos : 0 < k) by nia.
    destruct k as [|M1|M1]; try lia.
    exists M1.
    assert (Hq : Z.pos M / 2 ^ Z.pos n = Z.pos M1).
    { rewrite Hk. apply Z.div_mul. lia. }
    assert (Hd1 : Z.pos (digits2_pos M1) = 53).
    { apply digits2_unique.
      destruct (digits2_bounds M) as [Hlo' Hhi']. fold D in Hlo', Hhi'.
      replace D with (53 + Z.pos n) in Hhi' by lia.
      replace (D - 1) with (52 + Z.pos n) in Hlo' by lia.
      rewrite Z.pow_add_r in Hlo', Hhi' by lia.
      rewrite Hk in Hlo', Hhi'. change (53 - 1) with 52. nia. }
    split; [|split; [exact Hd1 | lia]].
    unfold binary_round_aux.
    assert (Hs : shr_fexp prec emax (Z.pos M) e loc_Exact
                 = (exact_rec (Z.pos M1), e + Z.pos n)).
    { unfold shr_fexp, Zdigits2. fold D.
      rewrite fexp_normal by lia.
      replace (D + e - 53 - e) with (Z.pos n) by lia.
      unfold shr. cbn [shr_record_of_loc]. fold (exact_rec (Z.pos M)).
      rewrite iter_shr_1_exact; [now rewrite Hq | lia | now exists (Z.pos M1)]. }
    rewrite Hs. cbn [exact_rec shr_m loc_of_shr_record round_nearest_even].
    rewrite shr_fexp_53 by (auto; lia). cbn [exact_rec shr_m].
    replace (e + D - 53) with (e + Z.pos n) by lia.
    replace (e + Z.pos n <=? emax - prec) with true; [reflexivity|].
    symmetry. apply Z.leb_le. unfold emax, prec. lia.
Qed.

(** Normalising a mantissa whose value fits in 53 bits is exact: the result
    has 53 digits and the same value. *)
Lemma binary_round_exact (M : positive) (e : Z) :
  let D := Z.pos (digits2_pos M) in
  -1074 <= e -> -1074 <= D + e - 53 <= 971 ->
  (53 <= D -> (2 ^ (D - 53) | Z.pos M)) ->
  exists M1 : positive,
    binary_round prec emax false M e = S754_finite false M1 (D + e - 53) /\
    Z.pos (digits2_pos M1) = 53 /\
    Z.pos M1 * 2 ^ D = Z.pos M * 2 ^ 53.
Proof.
  intros D He Hfe Hdiv.
  assert (HD : 0 < D) by (unfold D; lia).
  unfold binary_round, shl_align. fold D.
  rewrite fexp_normal by lia.
  destruct (D + e - 53 - e) as [|n|n] eqn:Hn.
  - assert (HD53 : D = 53) by lia.
    exists M. rewrite binary_round_aux_53 by (fold D; lia).
    rewrite HD53. split; [f_equal; lia|]. split; [exact HD53 | reflexivity].
  - destruct (binary_round_aux_exact M e) as (M1 & Hr & Hd1 & Hv);
      fold D; try lia.
    { apply Hdiv. lia. }
    fold D in Hr, Hv. exists M1. rewrite Hr.
    split; [f_equal; lia|]. split; [exact Hd1|].
    rewrite <- Hv.
    assert (Hp : 2 ^ D = 2 ^ (D - 53) * 2 ^ 53).
    { rewrite <- Z.pow_add_r by lia. f_equal. lia. }
    rewrite Hp. ring.
  - assert (Hsh : Z.pos (Pos.iter xO M n) = Z.pos M * 2 ^ Z.pos n)
      by apply iter_xO_pow.
    assert (Hd1 : Z.pos (digits2_pos (Pos.iter xO M n)) = 53).
    { apply digits2_unique. rewrite Hsh.
      destruct (digits2_bounds M) as [Hlo' Hhi']. fold D in Hlo', Hhi'.
      assert (Hpow : 0 < 2 ^ Z.pos n) by (apply Z.pow_pos_nonneg; lia).
      replace 53 with (D + Z.pos n) by lia.
      replace (D + Z.pos n - 1) with (D - 1 + Z.pos n) by lia.
      rewrite !Z.pow_add_r by lia. nia. }
    exists (Pos.iter xO M n).
    rewrite binary_round_aux_53 by (auto; lia).
    split; [reflexivity|]. split; [exact Hd1|].
    rewrite Hsh.
    assert (Hp : 2 ^ 53 = 2 ^ D * 2 ^ Z.pos n).
    { rewrite <- Z.pow_add_r by lia. f_equal. lia. }
    rewrite Hp. ring.
Qed.

(** One minus a grid value below one: the exact difference, again on the
    grid. *)
Lemma one_minus_grid (m : positive) (e : Z) :
  on_grid m e ->
  exists (m1 : positive) (e1 : Z),
    SFsub prec emax (S754_finite false 4503599627370496 (-52))
          (S754_finite false m e) = S754_finite false m1 e1 /\
    on_grid m1 e1 /\
    Z.pos m1 * 2 ^ (e1 + 105) = 2 ^ 105 - Z.pos m * 2 ^ (e + 105).
Proof.
  intros (Hd & He & [km Hkm]).
  remember (-53 - e) as j eqn:Hj.
  assert (He' : e = -53 - j) by lia. subst e. clear Hj.
  assert (Hj : 0 <= j <= 52) by lia.
  assert (H2j : 0 < 2 ^ j) by (apply Z.pow_pos_nonneg; lia).
  destruct (digits2_bounds m) as [Hmlo Hmhi]. rewrite Hd in Hmlo, Hmhi.
  change (53 - 1) with 52 in Hmlo.
  unfold SFsub, cond_Zopp, shl_align, binary_normalize.
  rewrite Z.min_r by lia.
  replace (-53 - j - (-53 - j)) with 0 by lia.
  destruct (-53 - j - -52) as [|d|d] eqn:Hdd; try lia.
  cbn [fst].
  rewrite iter_xO_pow.
  assert (Hd' : Z.pos d = j + 1) by lia. rewrite Hd'.
  change (Z.pos 4503599627370496) with (2 ^ 52).
  rewrite <- Z.pow_add_r by lia.
  replace (52 + (j + 1)) with (53 + j) by lia.
  assert (Hbig : 2 ^ (53 + j) = 2 ^ 53 * 2 ^ j) by (apply Z.pow_add_r; lia).
  assert (Hkm53 : 0 < km < 2 ^ 53) by nia.
  assert (HM : 2 ^ (53 + j) - Z.pos m = (2 ^ 53 - km) * 2 ^ j).
  { rewrite Hbig, Hkm. ring. }
  destruct (2 ^ (53 + j) - Z.pos m) as [|M|M] eqn:HMe; try nia.
  set (K := 2 ^ 53 - km) in *.
  assert (HK : 0 < K < 2 ^ 53) by (unfold K; lia).
  destruct (digits2_bounds M) as [HMlo HMhi].
  set (D := Z.pos (digits2_pos M)) in *.
  assert (HDlo : j + 1 <= D).
  { destruct (Z.lt_ge_cases D (j + 1)) as [Hlt|]; auto.
    assert (2 ^ D <= 2 ^ j) by (apply Z.pow_le_mono_r; lia). nia. }
  assert (HDhi : D <= 53 + j).
  { destruct (Z.lt_ge_cases (53 + j) D) as [Hlt|]; [|lia].
    assert (2 ^ (53 + j) <= 2 ^ (D - 1)) by (apply Z.pow_le_mono_r; lia). nia. }
  destruct (binary_round_exact M (-53 - j)) as (M1 & Hr & Hd1 & Hv);
    fold D; try lia.
  { intros H53. rewrite HM.
    exists (K * 2 ^ (j - (D - 53))).
    rewrite <- Z.mul_assoc, <- Z.pow_add_r by lia. do 2 f_equal. lia. }
  fold D in Hr, Hv.
  exists M1, (D + (-53 - j) - 53). split; [exact Hr|].
  set (j1 := j + 53 - D).
  assert (HM1 : Z.pos M1 = K * 2 ^ j1).
  { assert (HpD : 0 < 2 ^ D) by (apply Z.pow_pos_nonneg; lia).
    apply (Z.mul_reg_r _ _ (2 ^ D)); [lia|].
    rewrite Hv, HM, <- !Z.mul_assoc, <- !Z.pow_add_r by (unfold j1; lia).
    do 2 f_equal. unfold j1. lia. }
  split.
  - split; [exact Hd1|]. split; [lia|].
    exists K. rewrite HM1. do 2 f_equal. unfold j1. lia.
  - rewrite HM1, Hkm, <- !Z.mul_assoc, <- !Z.pow_add_r by (unfold j1; lia).
    replace (j1 + (D + (-53 - j) - 53 + 105)) with 52 by (unfold j1; lia).
    replace (j + (-53 - j + 105)) with 52 by lia.
    unfold K. change (2 ^ 105) with (2 ^ 53 * 2 ^ 52). ring.
Qed.

(** A grid value has one representation. *)
Lemma on_grid_unique (m m' : positive) (e e' : Z) :
  on_grid m e -> on_grid m' e' ->
  Z.pos m * 2 ^ (e + 105) = Z.pos m' * 2 ^ (e' + 105) ->
  m = m' /\ e = e'.
Proof.
  intros (Hd & He & _) (Hd' & He' & _) Hv.
  destruct (digits2_bounds m) as [Hlo Hhi]. rewrite Hd in Hlo, Hhi.
  destruct (digits2_bounds m') as [Hlo' Hhi']. rewrite Hd' in Hlo', Hhi'.
  change (53 - 1) with 52 in *.
  assert (Hee : e = e').
  { destruct (Z.lt_trichotomy e e') as [Hlt|[Heq|Hgt]]; auto; exfalso.
    - replace (e' + 105) with (e + 105 + (e' - e)) in Hv by lia.
      rewrite (Z.pow_add_r 2 (e + 105) (e' - e)) in Hv by lia.
      assert (H2 : 2 ^ 1 <= 2 ^ (e' - e)) by (apply Z.pow_le_mono_r; lia).
      assert (Hp : 0 < 2 ^ (e + 105)) by (apply Z.pow_pos_nonneg; lia).
      change (2 ^ 1) with 2 in H2.
      assert (Hc : Z.pos m = Z.pos m' * 2 ^ (e' - e)).
      { apply (Z.mul_reg_r _ _ (2 ^ (e + 105))); [lia|]. rewrite Hv. ring. }
      assert (Z.pos m' * 2 <= Z.pos m' * 2 ^ (e' - e))
        by (apply Z.mul_le_mono_nonneg_l; lia).
      lia.
    - replace (e + 105) with (e' + 105 + (e - e')) in Hv by lia.
      rewrite (Z.pow_add_r 2 (e' + 105) (e - e')) in Hv by lia.
      assert (H2 : 2 ^ 1 <= 2 ^ (e - e')) by (apply Z.pow_le_mono_r; lia).
      assert (Hp : 0 < 2 ^ (e' + 105)) by (apply Z.pow_pos_nonneg; lia).
      change (2 ^ 1) with 2 in H2.
      assert (Hc : Z.pos m' = Z.pos m * 2 ^ (e - e')).
      { apply (Z.mul_reg_r _ _ (2 ^ (e' + 105))); [lia|]. rewrite <- Hv. ring. }
      assert (Z.pos m * 2 <= Z.pos m * 2 ^ (e - e'))
        by (apply Z.mul_le_mono_nonneg_l; lia).
      lia. }
  split; [|exact Hee]. subst e'.
  assert (Hp : 0 < 2 ^ (e + 105)) by (apply Z.pow_pos_nonneg; lia).
  apply Z.mul_reg_r in Hv; [|lia]. congruence.
Qed.

Lemma Prim2SF_one : Prim2SF 1%float = S754_finite false 4503599627370496 (-52).
Proof. reflexivity. Qed.

Lemma valid_normal_digits (m : positive) (e : Z) :
  valid_binary (S754_finite false m e) = true -> -1074 < e ->
  Z.pos (digits2_pos m) = 53.
Proof.
  unfold SpecFloat.valid_binary, bounded, canonical_mantissa, fexp,
    SpecFloat.emin, prec, emax.
  intros Hv He. apply andb_true_iff in Hv as [Hc _].
  apply Z.eqb_eq in Hc. lia.
Qed.

(** Reflecting twice is the identity on the grid. *)
Lemma one_minus_one_minus (v : float) :
  on_grid53 v = true -> (1 - (1 - v))%float = v.
Proof.
  unfold on_grid53. intros Hg.
  apply Prim2SF_inj. rewrite !sub_spec, Prim2SF_one.
  pose proof (Prim2SF_valid v) as Hvalid.
  destruct (Prim2SF v) as [[|]|s| |[|] m e]; try discriminate Hg.
  - reflexivity.
  - apply orb_true_iff in Hg as [Hone|Hgrid].
    + apply andb_true_iff in Hone as [He Hm].
      apply Z.eqb_eq in He, Hm. subst e.
      assert (m = 4503599627370496%positive) as -> by (apply Pos2Z.inj; exact Hm).
      reflexivity.
    + apply andb_true_iff in Hgrid as [Hgrid Hmod].
      apply andb_true_iff in Hgrid as [Hlo Hhi].
      apply Z.leb_le in Hlo, Hhi. apply Z.eqb_eq in Hmod.
      assert (Hon : on_grid m e).
      { split; [apply (valid_normal_digits m e); [exact Hvalid | lia]|].
        split; [lia|].
        apply Z.mod_divide; [|exact Hmod].
        apply Z.pow_nonzero; lia. }
      destruct (one_minus_grid m e Hon) as (m1 & e1 & Hs1 & Hon1 & Hv1).
      unfold SF64sub. rewrite Hs1.
      destruct (one_minus_grid m1 e1 Hon1) as (m2 & e2 & Hs2 & Hon2 & Hv2).
      rewrite Hs2.
      destruct (on_grid_unique m2 m e2 e Hon2 Hon) as [-> ->]; [lia|].
      reflexivity.
Qed.

(** Shifting right in general: the mantissa is halved, rounding down. *)
Lemma shr_1_m (r : shr_record) :
  0 <= shr_m r -> shr_m (shr_1 r) = shr_m r / 2 /\ 0 <= shr_m (shr_1 r).
Proof.
  destruct r as [m r s]. cbn [shr_m]. intros Hm.
  rewrite <- Z.div2_div.
  destruct m as [|[p|p|]|p]; simpl; split; try reflexivity; lia.
Qed.

Lemma iter_shr_1_m (n : positive) (r : shr_record) :
  0 <= shr_m r ->
  shr_m (SpecFloat.iter_pos shr_1 n r) = shr_m r / 2 ^ Z.pos n /\
  0 <= shr_m (SpecFloat.iter_pos shr_1 n r).
Proof.
  rewrite iter_pos_iter. intros Hm.
  induction n as [|n IH] using Pos.peano_ind.
  - simpl Pos.iter. change (2 ^ 1) with 2. now apply shr_1_m.
  - rewrite Pos.iter_succ. destruct IH as [IHm IHpos].
    destruct (shr_1_m _ IHpos) as [Hs Hspos]. split; [|exact Hspos].
    rewrite Hs, IHm, Pos2Z.inj_succ, Z.pow_succ_r by lia.
    rewrite Z.div_div by (try apply Z.pow_pos_nonneg; lia).
    f_equal. ring.
Qed.

Lemma round_nearest_even_range (q : Z) (l : location) :
  round_nearest_even q l = q \/ round_nearest_even q l = q + 1.
Proof.
  destruct l as [|[| |]]; simpl; auto. destruct (Z.even q); auto.
Qed.

(** [1 - y] for a positive double [y] below one half: the result has
    exponent -53, or is one. *)
Lemma one_minus_small (m : positive) (e : Z) :
  Z.pos (digits2_pos m) <= 53 -> -1074 <= e <= -54 ->
  exists (m1 : positive) (e1 : Z),
    SFsub prec emax (S754_finite false 4503599627370496 (-52))
          (S754_finite false m e) = S754_finite false m1 e1 /\
    ((m1 = 4503599627370496%positive /\ e1 = -52) \/ on_grid m1 e1).
Proof.
  intros Hd He.
  destruct (digits2_bounds m) as [_ Hmhi].
  assert (Hm53 : Z.pos m < 2 ^ 53).
  { eapply Z.lt_le_trans; [exact Hmhi|]. apply Z.pow_le_mono_r; lia. }
  remember (- e) as a eqn:Ha. assert (He' : e = - a) by lia. subst e. clear Ha.
  assert (H2a : 2 ^ a = 2 ^ 53 * 2 ^ (a - 53)).
  { rewrite <- Z.pow_add_r by lia. f_equal. lia. }
  assert (H2a1 : 2 ^ a = 2 * 2 ^ (a - 1)).
  { rewrite <- Z.pow_succ_r by lia. f_equal. lia. }
  assert (Hge : 2 ^ 53 <= 2 ^ (a - 1)) by (apply Z.pow_le_mono_r; lia).
  unfold SFsub, cond_Zopp, shl_align, binary_normalize.
  rewrite Z.min_r by lia.
  replace (- a - - a) with 0 by lia.
  destruct (- a - -52) as [|d|d] eqn:Hdd; try lia.
  cbn [fst]. rewrite iter_xO_pow.
  assert (Hd' : Z.pos d = a - 52) by lia. rewrite Hd'.
  change (Z.pos 4503599627370496) with (2 ^ 52).
  rewrite <- Z.pow_add_r by lia.
  replace (52 + (a - 52)) with a by lia.
  destruct (2 ^ a - Z.pos m) as [|M|M] eqn:HM; try lia.
  assert (HD : Z.pos (digits2_pos M) = a).
  { apply digits2_unique. lia. }
  unfold binary_round, shl_align. rewrite HD.
  replace (a + - a) with 0 by lia.
  change (fexp prec emax 0) with (-53).
  destruct (-53 - - a) as [|n|n] eqn:Hn; try lia.
  unfold binary_round_aux.
  unfold shr_fexp at 1. cbn [Zdigits2]. rewrite HD.
  replace (a + - a) with 0 by lia.
  change (fexp prec emax 0) with (-53). rewrite Hn.
  unfold shr. cbn [shr_record_of_loc].
  destruct (iter_shr_1_m n {| shr_m := Z.pos M; shr_r := false; shr_s := false |})
    as [Hq _]; [cbn; lia|].
  cbn [shr_m] in Hq.
  set (mrs := SpecFloat.iter_pos shr_1 n _) in *.
  replace (- a + Z.pos n) with (-53) by lia.
  assert (Hqr : 2 ^ 52 <= shr_m mrs < 2 ^ 53).
  { rewrite Hq. assert (Hn' : Z.pos n = a - 53) by lia. rewrite Hn'.
    assert (Hp : 0 < 2 ^ (a - 53)) by (apply Z.pow_pos_nonneg; lia).
    split.
    - apply Z.div_le_lower_bound; [lia|].
      assert (2 ^ (a - 1) = 2 ^ (a - 53) * 2 ^ 52).
      { rewrite <- Z.pow_add_r by lia. f_equal. lia. }
      lia.
    - apply Z.div_lt_upper_bound; [lia|]. lia. }
  remember (shr_m mrs) as q eqn:Hqdef. clear Hqdef.
  destruct (round_nearest_even_range q (loc_of_shr_record mrs)) as [Hr|Hr];
    rewrite Hr; clear Hr.
  - destruct q as [|q0|q0] eqn:Hqe; try lia.
    assert (Hdq : Z.pos (digits2_pos q0) = 53).
    { apply digits2_unique. change (53 - 1) with 52. exact Hqr. }
    exists q0, (-53). rewrite shr_fexp_53 by (auto; lia). cbn [exact_rec shr_m].
    split; [reflexivity|]. right.
    split; [exact Hdq|]. split; [lia|]. exists (Z.pos q0). simpl. lia.
  - destruct (Z.eq_dec (q + 1) (2 ^ 53)) as [Heq|Hne].
    + exists 4503599627370496%positive, (-52). rewrite Heq.
      split; [reflexivity|]. left. split; reflexivity.
    + destruct (q + 1) as [|q1|q1] eqn:Hqe; try lia.
      assert (Hdq : Z.pos (digits2_pos q1) = 53).
      { apply digits2_unique. change (53 - 1) with 52. lia. }
      exists q1, (-53). rewrite shr_fexp_53 by (auto; lia). cbn [exact_rec shr_m].
      split; [reflexivity|]. right.
      split; [exact Hdq|]. split; [lia|]. exists (Z.pos q1). simpl. lia.
Qed.

Lemma on_grid53_inv (w : float) :
  on_grid53 w = true ->
  Prim2SF w = S754_zero false \/
  Prim2SF w = S754_finite false 4503599627370496 (-52) \/
  exists m e, Prim2SF w = S754_finite false m e /\ on_grid m e.
Proof.
  unfold on_grid53. intros Hg.
  pose proof (Prim2SF_valid w) as Hvalid.
  destruct (Prim2SF w) as [[|]|s| |[|] m e]; try discriminate Hg.
  - now left.
  - right. apply orb_true_iff in Hg as [Hone|Hgrid].
    + left. apply andb_true_iff in Hone as [He Hm].
      apply Z.eqb_eq in He, Hm. subst e.
      assert (m = 4503599627370496%positive) as -> by (apply Pos2Z.inj; exact Hm).
      reflexivity.
    + right. exists m, e. split; [reflexivity|].
      apply andb_true_iff in Hgrid as [Hgrid Hmod].
      apply andb_true_iff in Hgrid as [Hlo Hhi].
      apply Z.leb_le in Hlo, Hhi. apply Z.eqb_eq in Hmod.
      split; [apply (valid_normal_digits m e); [exact Hvalid | lia]|].
      split; [lia|].
      apply Z.mod_divide; [|exact Hmod].
      apply Z.pow_nonzero; lia.
Qed.

Lemma on_grid53_intro (w : float) (m : positive) (e : Z) :
  Prim2SF w = S754_finite false m e -> on_grid m e -> on_grid53 w = true.
Proof.
  intros Hw (_ & He & Hdiv). unfold on_grid53. rewrite Hw.
  apply orb_true_iff. right.
  apply andb_true_iff. split; [apply andb_true_iff; split; apply Z.leb_le; lia|].
  apply Z.eqb_eq. apply Z.mod_divide; [|exact Hdiv].
  apply Z.pow_nonzero; lia.
Qed.

(** One minus a grid value is a grid value. *)
Lemma one_minus_on_grid53 (w : float) :
  on_grid53 w = true -> on_grid53 (1 - w)%float = true.
Proof.
  intros Hg.
  destruct (on_grid53_inv w Hg) as [Hz|[Ho|(m & e & Hw & Hon)]].
  - unfold on_grid53. rewrite sub_spec, Hz, Prim2SF_one. reflexivity.
  - unfold on_grid53. rewrite sub_spec, Ho, Prim2SF_one. reflexivity.
  - destruct (one_minus_grid m e Hon) as (m1 & e1 & Hs & Hon1 & _).
    apply (on_grid53_intro _ m1 e1); [|exact Hon1].
    rewrite sub_spec, Hw, Prim2SF_one. exact Hs.
Qed.

(** One minus any value of the unit interval is a grid value. *)
Lemma one_minus_unit_on_grid53 (v : float) :
  in_unit_interval v = true -> on_grid53 (1 - v)%float = true.
Proof.
  unfold in_unit_interval. intros Hu.
  apply andb_true_iff in Hu as [H0 H1].
  rewrite leb_spec in H0, H1.
  pose proof (Prim2SF_valid v) as Hvalid.
  change (Prim2SF 0) with (S754_zero false) in H0.
  rewrite Prim2SF_one in H1.
  destruct (Prim2SF v) as [s|s| |s m e] eqn:Hv.
  - unfold on_grid53. rewrite sub_spec, Hv, Prim2SF_one.
    destruct s; reflexivity.
  - destruct s; discriminate.
  - discriminate.
  - destruct s; [discriminate H0|].
    unfold SpecFloat.valid_binary, bounded, canonical_mantissa, fexp,
      SpecFloat.emin, prec, emax in Hvalid.
    apply andb_true_iff in Hvalid as [Hc _]. apply Z.eqb_eq in Hc.
    unfold SFleb, SFcompare in H1.
    destruct (Z.compare_spec e (-52)) as [Heq|Hlt|Hgt]; [| |discriminate H1].
    + subst e.
      assert (Hd : Z.pos (digits2_pos m) = 53) by lia.
      destruct (digits2_bounds m) as [Hlo _]. rewrite Hd in Hlo.
      change (53 - 1) with 52 in Hlo.
      assert (Hle : (m <= 4503599627370496)%positive).
      { unfold Pos.le, Pos.compare.
        destruct (Pos.compare_cont Eq m 4503599627370496); discriminate. }
      apply Pos2Z.pos_le_pos in Hle.
      change (Z.pos 4503599627370496) with (2 ^ 52) in Hle.
      assert (m = 4503599627370496%positive) as ->.
      { apply Pos2Z.inj. change (Z.pos 4503599627370496) with (2 ^ 52). lia. }
      unfold on_grid53. rewrite sub_spec, Hv, Prim2SF_one. reflexivity.
    + destruct (Z.eq_dec e (-53)) as [He|He].
      * assert (Hon : on_grid m e).
        { split; [lia|]. split; [lia|]. subst e. exists (Z.pos m). simpl. lia. }
        apply one_minus_on_grid53. now apply (on_grid53_intro _ m e).
      * destruct (one_minus_small m e) as (m1 & e1 & Hs & Hcase); try lia.
        assert (Hp : Prim2SF (1 - v)%float = S754_finite false m1 e1).
        { rewrite sub_spec, Hv, Prim2SF_one. exact Hs. }
        destruct Hcase as [[-> ->]|Hon].
        -- unfold on_grid53. rewrite Hp. reflexivity.
        -- now apply (on_grid53_intro _ m1 e1).
Qed.

(** On the unit interval, reflecting twice is the identity exactly on the
    grid. *)
Lemma mirror_twice_iff (v : float) :
  in_unit_interval v = true ->
  ((1 - (1 - v))%float = v <-> on_grid53 v = true).
Proof.
  intros Hu. split.
  - intros Heq. rewrite <- Heq.
    apply one_minus_on_grid53. now apply one_minus_unit_on_grid53.
  - apply one_minus_one_minus.
Qed.

(** The representation of [k * 2^-53]. *)
Lemma Prim2SF_grid53 (k : Z) :
  0 < k < 2 ^ 53 ->
  exists m e, Prim2SF (grid53 k) = S754_finite false m e /\ on_grid m e /\
              Z.pos m * 2 ^ (e + 105) = k * 2 ^ 52.
Proof.
  intros Hk. unfold grid53.
  rewrite Z_ldexp_spec, of_uint63_spec, Uint63.of_Z_spec.
  rewrite Z.mod_small by (change Uint63.wB with (2 ^ 63); lia).
  destruct k as [|K|K]; try lia.
  unfold binary_normalize.
  destruct (digits2_bounds K) as [HKlo HKhi].
  set (D := Z.pos (digits2_pos K)) in *.
  assert (HD : 0 < D <= 53).
  { split; [unfold D; lia|].
    destruct (Z.lt_ge_cases 53 D) as [Hlt|]; [|lia].
    assert (2 ^ 53 <= 2 ^ (D - 1)) by (apply Z.pow_le_mono_r; lia). lia. }
  assert (Hdiv : 53 <= D -> (2 ^ (D - 53) | Z.pos K)).
  { intros H53. replace (D - 53) with 0 by lia. exists (Z.pos K). simpl. lia. }
  destruct (binary_round_exact K 0 ltac:(lia) ltac:(fold D; lia) Hdiv)
    as (M1 & Hr & Hd1 & Hv1).
  fold D in Hr, Hv1. rewrite Hr. unfold SFldexp.
  assert (Hdiv1 : 53 <= Z.pos (digits2_pos M1) ->
                  (2 ^ (Z.pos (digits2_pos M1) - 53) | Z.pos M1)).
  { intros _. rewrite Hd1. exists (Z.pos M1). simpl. lia. }
  destruct (binary_round_exact M1 (D + 0 - 53 + -53) ltac:(lia)
              ltac:(rewrite Hd1; lia) Hdiv1) as (M2 & Hr2 & Hd2 & Hv2).
  rewrite Hd1 in Hr2, Hv2. rewrite Hr2.
  assert (HM : M2 = M1).
  { apply Pos2Z.inj. apply (Z.mul_reg_r _ _ (2 ^ 53)); [lia|]. exact Hv2. }
  subst M2.
  assert (HpD : 0 < 2 ^ D) by (apply Z.pow_pos_nonneg; lia).
  assert (HM1 : Z.pos M1 = Z.pos K * 2 ^ (53 - D)).
  { apply (Z.mul_reg_r _ _ (2 ^ D)); [lia|].
    rewrite Hv1, <- Z.mul_assoc, <- Z.pow_add_r by lia.
    do 2 f_equal. lia. }
  exists M1, (53 + (D + 0 - 53 + -53) - 53).
  split; [reflexivity|]. split.
  - split; [exact Hd1|]. split; [lia|].
    exists (Z.pos K). rewrite HM1. do 2 f_equal. lia.
  - rewrite HM1, <- Z.mul_assoc, <- Z.pow_add_r by lia.
    do 2 f_equal. lia.
Qed.

(** The doubles [on_grid53] accepts are exactly [k * 2^-53], [0 <= k <= 2^53]. *)
Lemma on_grid53_iff (v : float) :
  on_grid53 v = true <-> exists k, 0 <= k <= 2 ^ 53 /\ v = grid53 k.
Proof.
  split.
  - intros Hg. destruct (on_grid53_inv v Hg) as [Hz|[Ho|(m & e & Hv & Hon)]].
    + exists 0. split; [lia|]. apply Prim2SF_inj. rewrite Hz. reflexivity.
    + exists (2 ^ 53). split; [lia|]. apply Prim2SF_inj. rewrite Ho. reflexivity.
    + pose proof Hon as (Hd & He & [k Hk]).
      destruct (digits2_bounds m) as [Hlo Hhi]. rewrite Hd in Hlo, Hhi.
      assert (Hp : 0 < 2 ^ (-53 - e)) by (apply Z.pow_pos_nonneg; lia).
      assert (Hk0 : 0 < k) by nia.
      assert (Hk53 : k < 2 ^ 53).
      { assert (1 <= 2 ^ (-53 - e)) by lia. nia. }
      exists k. split; [lia|].
      destruct (Prim2SF_grid53 k) as (m' & e' & Hg' & Hon' & Hval); [lia|].
      apply Prim2SF_inj. rewrite Hv, Hg'.
      destruct (on_grid_unique m m' e e' Hon Hon') as [-> ->]; [|reflexivity].
      rewrite Hval, Hk, <- Z.mul_assoc, <- Z.pow_add_r by lia.
      do 2 f_equal. lia.
  - intros (k & Hk & ->).
    destruct (Z.eq_dec k 0) as [->|H0]; [reflexivity|].
    destruct (Z.eq_dec k (2 ^ 53)) as [->|H1]; [reflexivity|].
    destruct (Prim2SF_grid53 k) as (m & e & Hg & Hon & _); [lia|].
    now apply (on_grid53_intro _ m e).
Qed.

End Binary64Facts.

(* ------------------------------------------------------------------ *)
(** * The stroke renderer *)

Section RendererProperties.
Import Types Canvas DrawUtils Geometry Scenario.

(** C4. A stroke with exactly one point paints exactly one mark: a
    zero-length segment at the transformed point, stroked with round caps
    and line width [width s], that is a filled disc of diameter [width s];
    the surface is not left empty.  A stroke with no point leaves the
    context exactly as it was. *)
Theorem single_point_stroke_is_a_dot
        (ctx : Ctx) (s : Stroke) (W H : number) (mirror : bool) :
  (forall p, points s = [p] ->
     exists op,
       painted_by (fun c => drawStroke c s W H mirror) ctx = [op] /\
       is_dot op (fst (transform p W H mirror)) (snd (transform p W H mirror))
              (width s) /\
       surface (drawStroke ctx s W H mirror) = surface ctx ++ [op] /\
       surface (drawStroke ctx s W H mirror) <> []) /\
  (points s = [] -> drawStroke ctx s W H mirror = ctx).
Proof.
  split.
  - intros p Hp.
    exists (Stroked [MoveTo (fst (transform p W H mirror))
                            (snd (transform p W H mirror));
                     LineTo (fst (transform p W H mirror))
                            (snd (transform p W H mirror))]
                    "round" "round" (composite_of s) (style_of s) (width s)).
    assert (Hpaint : paint_of s W H mirror
              = [Stroked (path_of [p] W H mirror) "round" "round"
                   (composite_of s) (style_of s) (width s)]).
    { unfold paint_of. now rewrite Hp. }
    split; [rewrite painted_by_drawStroke; exact Hpaint|].
    split; [unfold is_dot; eauto|].
    rewrite drawStroke_surface, Hpaint.
    split; [reflexivity|].
    intros Hnil. apply app_eq_nil in Hnil as [_ Hnil]. discriminate Hnil.
  - apply drawStroke_empty.
Qed.

Lemma single_point_stroke_is_a_dot_witness :
  painted_by (fun c => drawStroke c dot_stroke 300%float 200%float true) fresh
  = [Stroked [MoveTo 150%float 100%float; LineTo 150%float 100%float]
       "round" "round" "source-over" "#000000" 4%float] /\
  is_dot (Stroked [MoveTo 150%float 100%float; LineTo 150%float 100%float]
            "round" "round" "source-over" "#000000" 4%float)
         150%float 100%float 4%float.
Proof.
  destruct (proj1 (single_point_stroke_is_a_dot fresh dot_stroke 300%float
                     200%float true) center eq_refl)
    as (op & Hop & Hdot & _).
  assert (Heq : op = Stroked [MoveTo 150%float 100%float;
                              LineTo 150%float 100%float]
                       "round" "round" "source-over" "#000000" 4%float).
  { injection Hop as Hop. symmetry. exact Hop. }
  rewrite <- Heq. split; [exact Hop | exact Hdot].
Defined.

(** C6. A call that draws an eraser stroke (at least one point) paints
    with "destination-out" and returns with the compositing mode back at
    "source-over"; what any following call of the renderer paints is what
    it would paint on any other context. *)
Theorem eraser_resets_compositing
        (ctx : Ctx) (s : Stroke) (W H : number) (mirror : bool) :
  truthy (isEraser s) = true ->
  points s <> [] ->
  let ctx' := drawStroke ctx s W H mirror in
  globalCompositeOperation ctx' = "source-over" /\
  painted_by (fun c => drawStroke c s W H mirror) ctx
    = [Stroked (path_of (points s) W H mirror) "round" "round"
         "destination-out" "rgba(0,0,0,1)" (width s)] /\
  (forall (next : Stroke) (W' H' : number) (mirror' : bool) (other : Ctx),
      painted_by (fun c => drawStroke c next W' H' mirror') ctx'
      = painted_by (fun c => drawStroke c next W' H' mirror') other /\
      called_by (fun c => drawStroke c next W' H' mirror') ctx'
      = called_by (fun c => drawStroke c next W' H' mirror') other).
Proof.
  intros He Hne ctx'.
  destruct (drawStroke_fields W H mirror ctx s Hne)
    as (_ & _ & Hgco & _).
  split; [exact Hgco|]. split.
  - rewrite painted_by_drawStroke. unfold paint_of, composite_of, style_of.
    rewrite He. destruct (points s); [congruence | reflexivity].
  - intros next W' H' mirror' other.
    now rewrite !painted_by_drawStroke, !called_by_drawStroke.
Qed.

Lemma eraser_resets_compositing_witness :
  globalCompositeOperation
    (drawStroke fresh (eraser_dot "#ff00ff") 100%float 100%float false)
  = "source-over" /\
  surface (drawStroke fresh (eraser_dot "#ff00ff") 100%float 100%float false)
  = [Stroked [MoveTo 50%float 50%float; LineTo 50%float 50%float]
       "round" "round" "destination-out" "rgba(0,0,0,1)" 20%float].
Proof.
  split.
  - exact (proj1 (eraser_resets_compositing fresh (eraser_dot "#ff00ff")
                    100%float 100%float false eq_refl
                    ltac:(discriminate))).
  - reflexivity.
Defined.

(** Helper for C7 on a whole log. *)
Lemma drawStrokes_same_but_eraser_color
      (W H : number) (mirror : bool) (la lb : list Stroke) (ctx : Ctx) :
  (forall a b c, same_but_eraser_color a b ->
                 drawStroke c a W H mirror = drawStroke c b W H mirror) ->
  Forall2 same_but_eraser_color la lb ->
  fold_left (fun c s => drawStroke c s W H mirror) la ctx
  = fold_left (fun c s => drawStroke c s W H mirror) lb ctx.
Proof.
  intros Hone Hall. revert ctx.
  induction Hall as [|a b la lb Hab Hall IH]; intros ctx; simpl.
  - reflexivity.
  - rewrite (Hone a b ctx Hab). apply IH.
Qed.

(** C7. The colour of an eraser stroke does not reach the output: two
    strokes that agree on points, width and eraser flag, and on colour
    unless they are erasers, leave the context in the same state (same
    calls, same surface, same properties); so do two renders of a zone
    whose logs and in-progress strokes agree in that sense. *)
Theorem eraser_color_is_irrelevant
        (p q : CanvasZone.Props) (cw ch dpr : number) (ctx : Ctx) :
  CanvasZone.zoneType p = CanvasZone.zoneType q ->
  CanvasZone.activeZone p = CanvasZone.activeZone q ->
  CanvasZone.isHidden p = CanvasZone.isHidden q ->
  Forall2 same_but_eraser_color
          (CanvasZone.strokes p) (CanvasZone.strokes q) ->
  same_current (CanvasZone.currentStroke p) (CanvasZone.currentStroke q) ->
  CanvasZone.render_ctx p cw ch dpr ctx
  = CanvasZone.render_ctx q cw ch dpr ctx /\
  (forall a b c W H mirror,
      same_but_eraser_color a b ->
      drawStroke c a W H mirror = drawStroke c b W H mirror).
Proof.
  assert (Hone : forall a b c W H mirror,
             same_but_eraser_color a b ->
             drawStroke c a W H mirror = drawStroke c b W H mirror).
  { intros a b c W H mirror (Hp & Hw & He & Hc).
    unfold drawStroke. rewrite <- Hp, <- Hw, <- He.
    destruct (truthy (isEraser a)) eqn:Het.
    - reflexivity.
    - now rewrite (Hc eq_refl). }
  intros Hzt Haz Hhid Hlog Hcur. split; [|exact Hone].
  unfold CanvasZone.render_ctx, CanvasZone.shouldShowContent,
    CanvasZone.isActiveWritingZone, CanvasZone.isMirror.
  rewrite Hzt, Haz, Hhid.
  destruct (negb (negb _)); [reflexivity|].
  cbv zeta.
  rewrite (drawStrokes_same_but_eraser_color _ _ _ (CanvasZone.strokes p)
             (CanvasZone.strokes q)); [ | intros; now apply Hone | exact Hlog ].
  unfold same_current in Hcur.
  destruct (CanvasZone.currentStroke p) as [a|],
           (CanvasZone.currentStroke q) as [b|]; try contradiction.
  - now apply Hone.
  - reflexivity.
Qed.

Lemma eraser_color_is_irrelevant_witness :
  CanvasZone.render_ctx (mirror_zone "#ff0000" "#0000ff")
    100%float 100%float 1%float fresh
  = CanvasZone.render_ctx (mirror_zone "#00ff00" "#ffffff")
      100%float 100%float 1%float fresh.
Proof.
  assert (He : forall c c', same_but_eraser_color (eraser_dot c) (eraser_dot c')).
  { intros c c'. split; [reflexivity|]. split; [reflexivity|].
    split; [reflexivity|]. intros Hf; discriminate Hf. }
  assert (Hl : same_but_eraser_color line_stroke line_stroke).
  { split; [reflexivity|]. split; [reflexivity|]. split; reflexivity. }
  exact (proj1 (eraser_color_is_irrelevant
                  (mirror_zone "#ff0000" "#0000ff")
                  (mirror_zone "#00ff00" "#ffffff")
                  100%float 100%float 1%float fresh
                  eq_refl eq_refl eq_refl
                  (Forall2_cons _ _ Hl
                     (Forall2_cons _ _ (He "#ff0000" "#00ff00")
                        (Forall2_nil _)))
                  (He "#0000ff" "#ffffff"))).
Defined.

End RendererProperties.

(* ------------------------------------------------------------------ *)
(** * The coordinate transform *)

Section TransformProperties.
Import Types Canvas DrawUtils Geometry Scenario.

Lemma coords_path_of (pts : list Point) (W H : number) (mirror : bool) :
  map coords (path_of pts W H mirror)
  = map (fun p => transform p W H mirror) pts
    ++ match pts with
       | [p] => [transform p W H mirror]
       | _ => []
       end.
Proof.
  destruct pts as [|p0 [|p1 rest]]; simpl; try reflexivity.
  rewrite app_nil_r, map_map. reflexivity.
Qed.

(** C3, as the code has it. The renderer maps every point of a stroke,
    the first and the later ones alike, to (p.x*W, p.y*H) when the mirror
    flag is false and to (p.x*W, (1-p.y)*H) when it is true, the products
    and the difference being double-precision operations.  Reflecting a Y
    of [0,1] twice returns the original Y exactly when Y lies on the 2^-53
    grid, that is when Y is k * 2^-53 for an integer k from 0 to 2^53
    (every double from 0.5 to 1 is one). *)
Theorem stroke_points_go_through_transform
        (ctx : Ctx) (s : Stroke) (W H : number) (mirror : bool) :
  (forall p,
      transform p W H false = ((x p * W)%float, (y p * H)%float) /\
      transform p W H true = ((x p * W)%float, ((1 - y p) * H)%float)) /\
  painted_by (fun c => drawStroke c s W H mirror) ctx
    = match points s with
      | [] => []
      | pts => [Stroked (path_of pts W H mirror) "round" "round"
                  (composite_of s) (style_of s) (width s)]
      end /\
  map coords (path_of (points s) W H mirror)
    = map (fun p => transform p W H mirror) (points s)
      ++ match points s with
         | [p] => [transform p W H mirror]
         | _ => []
         end /\
  (forall v, on_grid53 v = true <->
             exists k, (0 <= k <= 2 ^ 53)%Z /\ v = grid53 k) /\
  (forall v, on_grid53 v = true -> mirror_y (mirror_y v) = v) /\
  (forall v, in_unit_interval v = true ->
             (mirror_y (mirror_y v) = v <-> on_grid53 v = true)).
Proof.
  split; [intros p; split; reflexivity|].
  split; [apply painted_by_drawStroke|].
  split; [apply coords_path_of|].
  split; [apply on_grid53_iff|].
  split.
  - intros v Hv. unfold mirror_y. now apply one_minus_one_minus.
  - intros v Hv. unfold mirror_y. now apply mirror_twice_iff.
Qed.

Lemma stroke_points_go_through_transform_witness :
  in_unit_interval 0.25%float = true /\
  on_grid53 0.25%float = true /\
  mirror_y (mirror_y 0.25%float) = 0.25%float.
Proof.
  split; [reflexivity|]. split; [reflexivity|].
  exact (proj2 (proj2 (proj2 (proj2 (proj2 (proj2
           (stroke_points_go_through_transform fresh line_stroke
              100%float 100%float true))))) 0.25%float eq_refl)
          eq_refl).
Defined.

(** C3 as stated fails on its last part: in double precision, reflecting
    0.3 twice gives 0.30000000000000004. *)
Lemma mirror_twice_counterexample :
  mirror_y (mirror_y three_tenths) = 0x1.3333333333334p-2%float /\
  mirror_y (mirror_y three_tenths) <> three_tenths /\
  snd (transform {| x := 0%float; y := mirror_y three_tenths |}
         1%float 1%float true)
    <> snd (transform {| x := 0%float; y := three_tenths |}
              1%float 1%float false).
Proof.
  split; [reflexivity|].
  split; intros Hf; apply (f_equal Prim2SF) in Hf;
    vm_compute in Hf; discriminate Hf.
Qed.

End TransformProperties.

(* ------------------------------------------------------------------ *)
(** * More on the capture state machine *)

Section CaptureFacts.
Import Types DrawUtils App Ink.

Lemma active_target (w : Session) (e : PointerEvent) :
  currentTarget e = activeZone (state w) ->
  zone_eqb (activeZone (state w)) (currentTarget e) = true.
Proof. intros ->. apply zone_eqb_refl. Qed.

Lemma inactive_target (w : Session) (e : PointerEvent) :
  currentTarget e <> activeZone (state w) ->
  zone_eqb (activeZone (state w)) (currentTarget e) = false.
Proof.
  intros Hne. destruct (zone_eqb _ _) eqn:Hz; [|reflexivity].
  apply zone_eqb_eq in Hz. congruence.
Qed.

Lemma held_spec (e : PointerEvent) :
  (String.eqb (pointerType e) "mouse" && negb (Z.eqb (buttons e) 1))
  = negb (held e).
Proof. unfold held. now rewrite negb_involutive. Qed.

Lemma accepted_spec (w : Session) (e : PointerEvent) :
  accepted w e = zone_eqb (activeZone (state w)) (currentTarget e) && held e.
Proof. reflexivity. Qed.

(** A move that continues the gesture. *)
Lemma dispatch_move_held (w : Session) (e : PointerEvent) (cs : Stroke) :
  currentTarget e = activeZone (state w) ->
  currentStroke (state w) = Some cs ->
  held e = true ->
  dispatch w (PointerMove e)
  = {| state :=
         with_currentStroke (Some (extend cs [getNormalizedPoint e])) (state w);
       captures := captures w |}.
Proof.
  intros Hz Hc Hh.
  unfold dispatch, handle, CanvasZone.handlePointerMove,
    CanvasZone.isActiveWritingZone, handlePointerMove.
  cbn [zoneProps CanvasZone.activeZone CanvasZone.zoneType].
  rewrite (active_target w e Hz), Hc, held_spec, Hh.
  cbv [negb fold_left apply apply_state apply_captures state captures].
  destruct w as [s caps]. cbn [state] in Hc. rewrite Hc. reflexivity.
Qed.

(** A mouse move that reports the button released. *)
Lemma dispatch_move_released (w : Session) (e : PointerEvent) (cs : Stroke) :
  currentTarget e = activeZone (state w) ->
  currentStroke (state w) = Some cs ->
  held e = false ->
  dispatch w (PointerMove e)
  = {| state :=
         with_currentStroke None
           (with_strokes (strokes (state w) ++ [cs]) (state w));
       captures := captures w |}.
Proof.
  intros Hz Hc Hh.
  unfold dispatch, handle, CanvasZone.handlePointerMove,
    CanvasZone.isActiveWritingZone, handlePointerMove.
  cbn [zoneProps CanvasZone.activeZone CanvasZone.zoneType].
  rewrite (active_target w e Hz), Hc, held_spec, Hh. reflexivity.
Qed.

(** Pointer events on the canvas of the zone that is not active. *)
Lemma dispatch_inactive (w : Session) (e : PointerEvent) :
  currentTarget e <> activeZone (state w) ->
  dispatch w (PointerDown e) = w /\
  dispatch w (PointerMove e) = w /\
  dispatch w (PointerUp e) = w /\
  dispatch w (PointerLeave e) = w.
Proof.
  intros Hne.
  unfold dispatch, handle, CanvasZone.handlePointerDown,
    CanvasZone.handlePointerMove, CanvasZone.pointerUpListener,
    CanvasZone.pointerLeaveListener, CanvasZone.isActiveWritingZone.
  cbn [zoneProps CanvasZone.activeZone CanvasZone.zoneType].
  rewrite (inactive_target w e Hne). repeat split.
Qed.

Lemma dispatch_down_rejected (w : Session) (e : PointerEvent) :
  accepted w e = false -> dispatch w (PointerDown e) = w.
Proof.
  rewrite accepted_spec. intros Ha.
  unfold dispatch, handle, CanvasZone.handlePointerDown,
    CanvasZone.isActiveWritingZone, handlePointerDown.
  cbn [zoneProps CanvasZone.activeZone CanvasZone.zoneType].
  rewrite held_spec.
  destruct (zone_eqb _ _); [|reflexivity].
  simpl in Ha. rewrite Ha. reflexivity.
Qed.




End CaptureFacts.

(* ------------------------------------------------------------------ *)
(** * Properties of the capture state machine *)

Section CaptureExtras.
Import Types DrawUtils App Ink Scenario.

(** X1. While a stroke is in progress, a pointer-move on the active zone
    that keeps the contact (touch or pen, or a mouse with exactly the
    primary button) appends exactly one point, the normalised position of
    the event, at the end of the stroke; colour, width and eraser flag of
    the stroke, the log and the pointer captures stay as they were. *)
Theorem pointer_move_appends_one_point
        (w : Session) (e : PointerEvent) (cs : Stroke) :
  currentTarget e = activeZone (state w) ->
  currentStroke (state w) = Some cs ->
  held e = true ->
  let w' := dispatch w (PointerMove e) in
  currentStroke (state w')
    = Some {| points := points cs ++ [getNormalizedPoint e];
              color := color cs; width := width cs;
              isEraser := isEraser cs |} /\
  strokes (state w') = strokes (state w) /\
  captures w' = captures w.
Proof.
  intros Hz Hc Hh w'. subst w'.
  rewrite (dispatch_move_held w e cs Hz Hc Hh). repeat split.
Qed.

Lemma pointer_move_appends_one_point_witness :
  currentStroke (state (dispatch drawing (PointerMove touch_down)))
  = Some {| points := [center; {| x := 0.25%float; y := 0.75%float |}];
            color := "#000000"; width := 4%float; isEraser := Some false |}.
Proof.
  exact (proj1 (pointer_move_appends_one_point drawing touch_down dot_stroke
                  eq_refl eq_refl eq_refl)).
Defined.

(** X2. While a stroke is in progress, a mouse move on the active zone
    whose button state is not "primary only" ends the gesture: the stroke
    is appended to the log as it stands, without the position of this
    move, and nothing is left in progress, exactly the state a pointer-up
    produces; unlike pointer-up it does not release the pointer capture. *)
Theorem released_mouse_move_commits
        (w : Session) (e : PointerEvent) (cs : Stroke) :
  currentTarget e = activeZone (state w) ->
  currentStroke (state w) = Some cs ->
  held e = false ->
  let w' := dispatch w (PointerMove e) in
  strokes (state w') = strokes (state w) ++ [cs] /\
  currentStroke (state w') = None /\
  state w' = state (dispatch w (PointerUp e)) /\
  captures w' = captures w.
Proof.
  intros Hz Hc Hh w'. subst w'.
  rewrite (dispatch_move_released w e cs Hz Hc Hh).
  destruct (dispatch_up w e cs Hz Hc) as [-> _]. repeat split.
Qed.

Lemma released_mouse_move_commits_witness :
  strokes (state (dispatch drawing (PointerMove up_center))) = [dot_stroke] /\
  captures (dispatch drawing (PointerMove up_center)) = [(1%Z, BOTTOM)] /\
  captures (dispatch drawing (PointerUp up_center)) = [].
Proof.
  destruct (released_mouse_move_commits drawing up_center dot_stroke
              eq_refl eq_refl eq_refl) as (Hlog & _ & _ & Hcap).
  split; [exact Hlog|]. split; [exact Hcap | reflexivity].
Defined.




Lemma run_app (w : Session) (a b : list Event) :
  run w (a ++ b) = run (run w a) b.
Proof. unfold run. apply fold_left_app. Qed.



(** X5. Pointer events on the canvas of the zone that is not active do
    nothing at all: press, move, release and leave each leave the whole
    session, state and pointer captures, as it was. *)
Theorem inactive_zone_ignores_pointer_events (w : Session) (e : PointerEvent) :
  currentTarget e <> activeZone (state w) ->
  dispatch w (PointerDown e) = w /\
  dispatch w (PointerMove e) = w /\
  dispatch w (PointerUp e) = w /\
  dispatch w (PointerLeave e) = w.
Proof. apply dispatch_inactive. Qed.

Lemma inactive_zone_ignores_pointer_events_witness :
  dispatch drawing
    (PointerUp {| pointerType := "touch"; buttons := 0; pointerId := 1;
                  clientX := 50%float; clientY := 50%float;
                  currentTarget := TOP;
                  boundingClientRect := rect100 |}) = drawing.
Proof.
  refine (proj1 (proj2 (proj2 (inactive_zone_ignores_pointer_events drawing
            {| pointerType := "touch"; buttons := 0; pointerId := 1;
               clientX := 50%float; clientY := 50%float;
               currentTarget := TOP;
               boundingClientRect := rect100 |} _)))).
  intros Hf. discriminate Hf.
Defined.

(** X6. On the active zone a mouse press is acted on only when its button
    state is exactly "primary": with any other button state (secondary
    button, several buttons) the session is left as it was, no capture is
    taken and no stroke begins.  A press of any other pointer type is
    acted on whatever its button state. *)
Theorem mouse_press_needs_primary_button (w : Session) (e : PointerEvent) :
  currentTarget e = activeZone (state w) ->
  (pointerType e = "mouse" -> buttons e <> 1%Z ->
   dispatch w (PointerDown e) = w) /\
  (pointerType e = "mouse" -> buttons e = 1%Z -> accepted w e = true) /\
  (pointerType e <> "mouse" -> accepted w e = true).
Proof.
  intros Hz. rewrite accepted_spec, (active_target w e Hz). unfold held.
  split; [|split].
  - intros Hm Hb. apply dispatch_down_rejected.
    rewrite accepted_spec, (active_target w e Hz). unfold held.
    rewrite Hm. apply Z.eqb_neq in Hb. rewrite Hb. reflexivity.
  - intros Hm Hb. rewrite Hm, Hb. reflexivity.
  - intros Hm. apply String.eqb_neq in Hm. rewrite Hm. reflexivity.
Qed.

Lemma mouse_press_needs_primary_button_witness :
  dispatch (initial "")
    (PointerDown {| pointerType := "mouse"; buttons := 2; pointerId := 1;
                    clientX := 50%float; clientY := 50%float;
                    currentTarget := BOTTOM;
                    boundingClientRect := rect100 |}) = initial "".
Proof.
  refine (proj1 (mouse_press_needs_primary_button (initial "")
            {| pointerType := "mouse"; buttons := 2; pointerId := 1;
               clientX := 50%float; clientY := 50%float;
               currentTarget := BOTTOM;
               boundingClientRect := rect100 |} eq_refl) eq_refl _).
  intros Hf. discriminate Hf.
Defined.

End CaptureExtras.

(* ------------------------------------------------------------------ *)
(** * Invariants of the session *)

Section SessionInvariants.
Import Types DrawUtils App Ink Scenario.

Ltac unfold_handlers :=
  unfold dispatch, handle, CanvasZone.handlePointerDown,
    CanvasZone.handlePointerMove, CanvasZone.pointerUpListener,
    CanvasZone.pointerLeaveListener, CanvasZone.isActiveWritingZone,
    handlePointerDown, handlePointerMove, handlePointerUp,
    handleImageUpload, handleClearStrokes, onToggleSide,
    onToggleVisibility, onToggleLabels, onWidthChange;
  cbn [zoneProps CanvasZone.activeZone CanvasZone.zoneType].

Ltac split_cases :=
  repeat match goal with
         | |- context [if ?b then _ else _] => destruct b eqn:?
         | |- context [match ?o with Some _ => _ | None => _ end] =>
             destruct o eqn:?
         end.

Ltac unchanged :=
  left; cbn; split; [reflexivity|];
  split; [first [assumption | reflexivity]|]; intros _; reflexivity.

(** What one event can do to the ink: nothing, start a stroke, extend the
    stroke in progress, commit it, or clear. *)
Lemma dispatch_ink (w : Session) (ev : Event) :
  let s := state w in
  let s' := state (dispatch w ev) in
  (strokes s' = strokes s /\ currentStroke s' = currentStroke s /\
   (writes_ink ev = true -> s' = s)) \/
  (exists p, writes_ink ev = true /\
             s' = with_currentStroke (Some (fresh_stroke s p)) s) \/
  (exists cs p, writes_ink ev = true /\ currentStroke s = Some cs /\
                s' = with_currentStroke (Some (extend cs [p])) s) \/
  (exists cs, writes_ink ev = true /\ currentStroke s = Some cs /\
              s' = with_currentStroke None (with_strokes (strokes s ++ [cs]) s)) \/
  (ev = ClearClick /\
   s' = with_currentStroke None (with_strokes [] s)).
Proof.
  destruct w as [s caps]. cbn [state].
  destruct ev; unfold_handlers; cbn [state];
    try (left; split; [reflexivity|]; split; [reflexivity|];
         intros Hf; discriminate Hf).
  - (* PointerDown *)
    destruct (zone_eqb _ _); cbn [negb];
      [|unchanged].
    destruct (_ && _); [unchanged|].
    right; left. eexists. split; reflexivity.
  - (* PointerMove *)
    destruct (zone_eqb _ _); cbn [negb]; [|unchanged].
    destruct (currentStroke s) as [cs|] eqn:Hc; [|unchanged].
    destruct (_ && _).
    + right; right; right; left. exists cs. repeat split.
    + right; right; left. exists cs. eexists. split; [reflexivity|].
      split; [reflexivity|]. cbn. rewrite Hc. reflexivity.
  - (* PointerUp *)
    destruct (zone_eqb _ _); [|unchanged].
    destruct (currentStroke s) as [cs|] eqn:Hc; [|unchanged].
    right; right; right; left. exists cs. repeat split.
  - (* PointerLeave *)
    destruct (zone_eqb _ _); [|unchanged].
    destruct (currentStroke s) as [cs|] eqn:Hc; [|unchanged].
    right; right; right; left. exists cs. repeat split.
  - (* ClearClick *)
    right; right; right; right. split; reflexivity.
  - destruct file; left; (split; [reflexivity|]; split; [reflexivity|]);
      intros Hf; discriminate Hf.
  - destruct (showSettings s); left; (split; [reflexivity|]; split; [reflexivity|]);
      intros Hf; discriminate Hf.
  - destruct (showSettings s); left; (split; [reflexivity|]; split; [reflexivity|]);
      intros Hf; discriminate Hf.
  - destruct (showSettings s); [destruct (tool_eqb _ _)|];
      left; (split; [reflexivity|]; split; [reflexivity|]);
      intros Hf; discriminate Hf.
Qed.

Lemma all_strokes_with (s : State) (l : list Stroke) (c : option Stroke) :
  all_strokes (with_currentStroke c (with_strokes l s))
  = l ++ match c with Some cs => [cs] | None => [] end.
Proof. reflexivity. Qed.

(** A property of strokes that holds of every fresh stroke and survives
    the appending of a point holds of all ink after any event. *)
Lemma ink_invariant (P : Stroke -> Prop) (w : Session) (ev : Event) :
  (forall p, P (fresh_stroke (state w) p)) ->
  (forall cs p, P cs -> P (extend cs [p])) ->
  Forall P (all_strokes (state w)) ->
  Forall P (all_strokes (state (dispatch w ev))).
Proof.
  intros Hfresh Hext Hall.
  unfold all_strokes in Hall. apply Forall_app in Hall as [Hlog Hcur].
  destruct (dispatch_ink w ev)
    as [(Hs & Hc & _)|[(p & _ & ->)|[(cs & p & _ & Hc & ->)
       |[(cs & _ & Hc & ->)|(_ & ->)]]]].
  - unfold all_strokes. rewrite Hs, Hc. now apply Forall_app.
  - unfold all_strokes; simpl. apply Forall_app. split; [exact Hlog|].
    constructor; [apply Hfresh | constructor].
  - unfold all_strokes; simpl. apply Forall_app. split; [exact Hlog|].
    rewrite Hc in Hcur. inversion Hcur; subst.
    constructor; [now apply Hext | constructor].
  - unfold all_strokes; simpl. rewrite app_nil_r. apply Forall_app.
    split; [exact Hlog|]. now rewrite Hc in Hcur.
  - constructor.
Qed.

Lemma well_formed_fresh (s : State) (p : Point) :
  well_formed_stroke (fresh_stroke s p) = true.
Proof. reflexivity. Qed.

Lemma well_formed_extend (cs : Stroke) (p : Point) :
  well_formed_stroke cs = true -> well_formed_stroke (extend cs [p]) = true.
Proof.
  unfold well_formed_stroke, extend; simpl.
  destruct (points cs); [discriminate|]. simpl. auto.
Qed.

(** X7. Every stroke of every reachable state has at least one point and
    a defined eraser flag, committed strokes and the stroke in progress
    alike, for any sequence of events from the initial state. *)
Theorem strokes_are_never_empty (img : string) (evs : list Event) :
  Forall (fun st => well_formed_stroke st = true /\ points st <> [])
         (all_strokes (state (run (initial img) evs))).
Proof.
  assert (Hinv : Forall (fun st => well_formed_stroke st = true)
                        (all_strokes (state (run (initial img) evs)))).
  { unfold run. generalize (initial img) (Forall_nil (fun st : Stroke =>
      well_formed_stroke st = true) : Forall _ (all_strokes (state (initial img)))).
    induction evs as [|ev evs IH]; intros w Hw; simpl; [exact Hw|].
    apply IH. apply ink_invariant; auto using well_formed_fresh, well_formed_extend. }
  eapply Forall_impl; [|exact Hinv].
  intros st Hst. split; [exact Hst|].
  unfold well_formed_stroke in Hst. destruct (points st); [discriminate|congruence].
Qed.

(** X8. The stroke log only grows at its end or is emptied as a whole: an
    event either keeps the old log as a prefix, adding at most the stroke
    that was in progress, or is the clear action and leaves the log empty.
    Over a sequence of events without a clear action the old log stays a
    prefix of the new one. *)
Theorem stroke_log_is_append_only (w : Session) (evs : list Event) :
  forallb (fun ev => negb (is_clear ev)) evs = true ->
  (exists added, strokes (state (run w evs)) = strokes (state w) ++ added) /\
  (forall ev,
      strokes (state (dispatch w ev)) = strokes (state w) \/
      (exists cs, currentStroke (state w) = Some cs /\
                  strokes (state (dispatch w ev)) = strokes (state w) ++ [cs]) \/
      (ev = ClearClick /\ strokes (state (dispatch w ev)) = [])).
Proof.
  assert (Hone : forall v ev,
             strokes (state (dispatch v ev)) = strokes (state v) \/
             (exists cs, currentStroke (state v) = Some cs /\
                         strokes (state (dispatch v ev))
                         = strokes (state v) ++ [cs]) \/
             (ev = ClearClick /\ strokes (state (dispatch v ev)) = [])).
  { intros v ev.
    destruct (dispatch_ink v ev)
      as [(Hs & _ & _)|[(p & _ & Hs)|[(cs & p & _ & _ & Hs)
         |[(cs & _ & Hc & Hs)|(Hev & Hs)]]]].
    - now left.
    - left. now rewrite Hs.
    - left. now rewrite Hs.
    - right; left. exists cs. rewrite Hs. auto.
    - right; right. rewrite Hs. auto. }
  intros Hall. split; [|apply Hone].
  revert w Hall. induction evs as [|ev evs IH]; intros w Hall.
  - exists []. simpl. now rewrite app_nil_r.
  - simpl in Hall. apply andb_true_iff in Hall as [Hev Hall].
    destruct (IH (dispatch w ev) Hall) as [added Hadd].
    change (run w (ev :: evs)) with (run (dispatch w ev) evs).
    rewrite Hadd.
    destruct (Hone w ev) as [Hs|[(cs & _ & Hs)|[Hc _]]].
    + exists added. now rewrite Hs.
    + exists (cs :: added). rewrite Hs, <- app_assoc. reflexivity.
    + subst ev. discriminate Hev.
Qed.

Lemma stroke_log_is_append_only_witness :
  exists added,
    strokes (state (run blind [PointerDown down_center; ToggleVisibility;
                               PointerUp up_center; ToggleSide]))
    = [dot_stroke; line_stroke] ++ added.
Proof.
  exact (proj1 (stroke_log_is_append_only blind
                  [PointerDown down_center; ToggleVisibility;
                   PointerUp up_center; ToggleSide] eq_refl)).
Defined.

(** Events of the settings leave ink and active zone alone. *)
Lemma settings_event_frame (w : Session) (ev : Event) :
  settings_event ev = true ->
  strokes (state (dispatch w ev)) = strokes (state w) /\
  currentStroke (state (dispatch w ev)) = currentStroke (state w) /\
  activeZone (state (dispatch w ev)) = activeZone (state w).
Proof.
  intros Hev.
  assert (Hz : activeZone (state (dispatch w ev)) = activeZone (state w)).
  { unfold dispatch. apply fold_apply_keeps_activeZone.
    apply handle_no_setActiveZone. intros ->. discriminate Hev. }
  assert (Hw : writes_ink ev = false) by (destruct ev; try reflexivity; discriminate Hev).
  destruct (dispatch_ink w ev)
    as [(Hs & Hc & _)|[(p & Hi & _)|[(cs & p & Hi & _)
       |[(cs & Hi & _)|(Hc & _)]]]]; try congruence.
  - auto.
  - subst ev. discriminate Hev.
Qed.

Lemma settings_events_frame (evs : list Event) (w : Session) :
  forallb settings_event evs = true ->
  strokes (state (run w evs)) = strokes (state w) /\
  currentStroke (state (run w evs)) = currentStroke (state w) /\
  activeZone (state (run w evs)) = activeZone (state w).
Proof.
  revert w. induction evs as [|ev evs IH]; intros w Hall; [repeat split|].
  simpl in Hall. apply andb_true_iff in Hall as [Hev Hall].
  destruct (settings_event_frame w ev Hev) as (Hs & Hc & Hz).
  destruct (IH (dispatch w ev) Hall) as (Hs' & Hc' & Hz').
  simpl. unfold run in *. rewrite Hs', Hc', Hz'. auto.
Qed.

(** X9. The attributes of a stroke are fixed when it starts: whatever tool,
    colour, width, label, visibility, background or panel events arrive
    between the press and the release, none of them touches the log or the
    stroke in progress, and the committed stroke carries the colour, width
    and eraser flag of the tool settings in force at the press. *)
Theorem settings_do_not_touch_ink
        (w : Session) (d u : PointerEvent) (evs : list Event) :
  accepted w d = true ->
  currentTarget u = activeZone (state w) ->
  forallb settings_event evs = true ->
  strokes (state (run w (PointerDown d :: evs ++ [PointerUp u])))
    = strokes (state w) ++ [fresh_stroke (state w) (getNormalizedPoint d)] /\
  (forall v, strokes (state (run v evs)) = strokes (state v) /\
             currentStroke (state (run v evs)) = currentStroke (state v)).
Proof.
  intros Ha Hu Hall. split.
  - change (PointerDown d :: evs ++ [PointerUp u])
      with ([PointerDown d] ++ evs ++ [PointerUp u]).
    rewrite !run_app.
    set (w1 := run w [PointerDown d]).
    assert (H1 : currentStroke (state w1)
                 = Some (fresh_stroke (state w) (getNormalizedPoint d)) /\
                 strokes (state w1) = strokes (state w) /\
                 activeZone (state w1) = activeZone (state w)).
    { subst w1. unfold run; simpl. rewrite (dispatch_down w d Ha). repeat split. }
    destruct H1 as (Hc1 & Hs1 & Hz1).
    destruct (settings_events_frame evs w1 Hall) as (Hs2 & Hc2 & Hz2).
    unfold run at 1. simpl.
    destruct (dispatch_up (run w1 evs) u
                (fresh_stroke (state w) (getNormalizedPoint d)))
      as [-> _]; [congruence | congruence |].
    simpl. congruence.
  - intros v. destruct (settings_events_frame evs v Hall) as (Hs & Hc & _). auto.
Qed.

Lemma settings_do_not_touch_ink_witness :
  strokes (state (run (initial "")
                    [PointerDown down_center; ToolChange eraser; SettingsClick;
                     WidthChange 80%float; ColorChange "#FF0000";
                     PointerUp up_center]))
  = [dot_stroke].
Proof.
  exact (proj1 (settings_do_not_touch_ink (initial "") down_center up_center
                  [ToolChange eraser; SettingsClick; WidthChange 80%float;
                   ColorChange "#FF0000"] eq_refl eq_refl eq_refl)).
Defined.

End SessionInvariants.

(* ------------------------------------------------------------------ *)
(** * Toggles and pointer capture *)

Section ToggleExtras.
Import Types DrawUtils App Ink Scenario.

Lemma session_eta (w : Session) :
  w = {| state := state w; captures := captures w |}.
Proof. now destruct w. Qed.

Lemma dispatch_toggle_side (w : Session) :
  dispatch w ToggleSide
  = {| state :=
         with_activeZone
           (match activeZone (state w) with TOP => BOTTOM | BOTTOM => TOP end)
           (state w);
       captures := captures w |}.
Proof. reflexivity. Qed.

(** X10. Switching the active zone while a stroke is in progress leaves
    that stroke in progress and cuts it off from the canvas it was started
    on: the move, release and leave events of that canvas are now ignored,
    so the stroke is not committed by its own release.  A release or leave
    on the newly active canvas commits it as it stands. *)
Theorem side_toggle_strands_stroke_in_progress
        (w : Session) (cs : Stroke) (e e' : PointerEvent) :
  currentStroke (state w) = Some cs ->
  currentTarget e = activeZone (state w) ->
  currentTarget e' <> activeZone (state w) ->
  let w1 := dispatch w ToggleSide in
  currentStroke (state w1) = Some cs /\
  strokes (state w1) = strokes (state w) /\
  dispatch w1 (PointerMove e) = w1 /\
  dispatch w1 (PointerUp e) = w1 /\
  dispatch w1 (PointerLeave e) = w1 /\
  strokes (state (dispatch w1 (PointerUp e'))) = strokes (state w) ++ [cs] /\
  currentStroke (state (dispatch w1 (PointerUp e'))) = None.
Proof.
  intros Hc He He' w1.
  assert (Hz1 : activeZone (state w1)
                = match activeZone (state w) with TOP => BOTTOM | BOTTOM => TOP end)
    by reflexivity.
  assert (Hc1 : currentStroke (state w1) = Some cs) by exact Hc.
  assert (Hne : currentTarget e <> activeZone (state w1)).
  { rewrite Hz1, He. now destruct (activeZone (state w)). }
  assert (Heq : currentTarget e' = activeZone (state w1)).
  { rewrite Hz1. destruct (currentTarget e'), (activeZone (state w));
      congruence. }
  destruct (dispatch_inactive w1 e Hne) as (_ & Hm & Hu & Hl).
  destruct (dispatch_up w1 e' cs Heq Hc1) as [Hup _].
  rewrite Hup. repeat split; assumption.
Qed.

Lemma side_toggle_strands_stroke_in_progress_witness :
  run drawing [ToggleSide; PointerUp up_center] = dispatch drawing ToggleSide /\
  currentStroke (state (run drawing [ToggleSide; PointerUp up_center]))
  = Some dot_stroke.
Proof.
  destruct (side_toggle_strands_stroke_in_progress drawing dot_stroke up_center
              {| pointerType := "touch"; buttons := 0; pointerId := 3;
                 clientX := 1%float; clientY := 1%float; currentTarget := TOP;
                 boundingClientRect := rect100 |}
              eq_refl eq_refl ltac:(discriminate))
    as (Hc & _ & _ & Hu & _).
  change (run drawing [ToggleSide; PointerUp up_center])
    with (dispatch (dispatch drawing ToggleSide) (PointerUp up_center)).
  split; [exact Hu|]. rewrite Hu. exact Hc.
Defined.

(** X11. The three sidebar toggles are involutions and change one field
    each: toggling the side, the hidden mode or the labels twice gives back
    the session exactly; toggling the side changes nothing but the active
    zone, so no stored stroke changes, and the zone that was active renders
    mirrored afterwards while the other one no longer does. *)
Theorem toggles_are_involutions (w : Session) :
  run w [ToggleSide; ToggleSide] = w /\
  run w [ToggleVisibility; ToggleVisibility] = w /\
  run w [ToggleLabels; ToggleLabels] = w /\
  state (dispatch w ToggleSide)
    = with_activeZone
        (match activeZone (state w) with TOP => BOTTOM | BOTTOM => TOP end)
        (state w) /\
  (forall z,
      CanvasZone.isMirror (zone (dispatch w ToggleSide) z)
      = negb (CanvasZone.isMirror (zone w z))) /\
  (forall z,
      CanvasZone.strokes (zone (dispatch w ToggleSide) z)
      = CanvasZone.strokes (zone w z) /\
      CanvasZone.currentStroke (zone (dispatch w ToggleSide) z)
      = CanvasZone.currentStroke (zone w z)).
Proof.
  destruct w as [s caps]. destruct s. unfold run; simpl.
  split; [now destruct activeZone0|].
  split; [unfold dispatch; simpl; now rewrite negb_involutive|].
  split; [unfold dispatch; simpl; now rewrite negb_involutive|].
  split; [reflexivity|].
  split; intros z.
  - unfold CanvasZone.isMirror, zone; simpl. now destruct activeZone0, z.
  - split; reflexivity.
Qed.

(** X12. Pointer capture over a gesture: an accepted press gives the
    pointer's capture to the canvas pressed, replacing any capture that
    pointer had; the release of that pointer on that canvas removes it; the
    captures of all other pointers are never touched. *)
Theorem capture_follows_gesture (w : Session) (d u : PointerEvent) :
  accepted w d = true ->
  currentTarget u = currentTarget d ->
  pointerId u = pointerId d ->
  let w1 := dispatch w (PointerDown d) in
  let w2 := dispatch w1 (PointerUp u) in
  (forall z, In (pointerId d, z) (captures w1) <-> z = currentTarget d) /\
  (forall z, ~ In (pointerId d, z) (captures w2)) /\
  (forall c, fst c <> pointerId d ->
             (In c (captures w1) <-> In c (captures w)) /\
             (In c (captures w2) <-> In c (captures w))).
Proof.
  intros Ha Ht Hi w1 w2.
  assert (H1 : captures w1
               = (pointerId d, currentTarget d)
                   :: filter (fun c => negb (Z.eqb (fst c) (pointerId d)))
                        (captures w)).
  { subst w1. now rewrite (dispatch_down w d Ha). }
  assert (H2 : captures w2
               = filter (fun c => negb (Z.eqb (fst c) (pointerId u)
                                        && zone_eqb (snd c) (currentTarget u)))
                   (captures w1)).
  { subst w2.
    destruct (accepted_inv w d Ha) as [Hz _].
    assert (Hc1 : exists cs, currentStroke (state w1) = Some cs).
    { subst w1. rewrite (dispatch_down w d Ha). eexists; reflexivity. }
    destruct Hc1 as [cs Hc1].
    assert (Hz1 : currentTarget u = activeZone (state w1)).
    { subst w1. rewrite (dispatch_down w d Ha). simpl. congruence. }
    destruct (dispatch_up w1 u cs Hz1 Hc1) as [-> _]. reflexivity. }
  assert (Hin1 : forall c, In c (captures w1) <->
                   c = (pointerId d, currentTarget d) \/
                   (In c (captures w) /\ fst c <> pointerId d)).
  { intros c. rewrite H1. simpl. rewrite filter_In, negb_true_iff, Z.eqb_neq.
    split; intros [H|H]; auto. }
  assert (Hin2 : forall c, In c (captures w2) <->
                   In c (captures w1) /\
                   ~ (fst c = pointerId d /\ snd c = currentTarget d)).
  { intros c. rewrite H2, filter_In, negb_true_iff, andb_false_iff, Hi, Ht.
    rewrite Z.eqb_neq.
    split; intros [Hc Hn]; split; auto.
    - intros [Hf Hs]. destruct Hn as [Hn|Hn]; [contradiction|].
      rewrite Hs, zone_eqb_refl in Hn. discriminate.
    - destruct (Z.eq_dec (fst c) (pointerId d)) as [Hf|Hf]; [|now left].
      right. destruct (zone_eqb (snd c) (currentTarget d)) eqn:Hzz; [|reflexivity].
      apply zone_eqb_eq in Hzz. tauto. }
  split; [|split].
  - intros z. rewrite Hin1. simpl. split.
    + intros [H|[_ H]]; [congruence | contradiction].
    + intros ->. now left.
  - intros z. rewrite Hin2, Hin1. simpl. intros [[H|[_ H]] Hn].
    + inversion H; subst. tauto.
    + contradiction.
  - intros c Hf. rewrite Hin2, !Hin1. split.
    + split; [intros [H|[H _]]; [subst c; contradiction | exact H] | auto].
    + split.
      * intros [[H|[H _]] _]; [subst c; contradiction | exact H].
      * intros H. split; [auto|]. intros [H' _]. contradiction.
Qed.

Lemma capture_follows_gesture_witness :
  captures (dispatch (initial "") (PointerDown down_center)) = [(1%Z, BOTTOM)] /\
  forall z, ~ In (1%Z, z)
              (captures (run (initial "") [PointerDown down_center;
                                           PointerUp up_center])).
Proof.
  split; [reflexivity|].
  exact (proj1 (proj2 (capture_follows_gesture (initial "") down_center
                         up_center eq_refl eq_refl eq_refl))).
Defined.

End ToggleExtras.

(* ------------------------------------------------------------------ *)
(** * The page: sidebar, settings panel and canvases together *)

Section ShellExtras.
Import Types DrawUtils App Ink Scenario.

Lemma run_one (w : Session) (ev : Event) : App.run w [ev] = dispatch w ev.
Proof. reflexivity. Qed.

(** One input is what its lowering does. *)
Lemma shell_dispatch_lower (w : Session) (i : Shell.Input) :
  Shell.dispatch w i = App.run w (Shell.lower (state w) i).
Proof.
  unfold Shell.dispatch, Shell.handle, Shell.lower.
  destruct (Shell.available (state w) i) eqn:Hav; cbn [negb]; [|reflexivity].
  destruct i as [c| |c| |k e].
  - destruct c; try reflexivity;
      cbn [Sidebar.activate Shell.sidebarProps Shell.sidebarCallbacks
           Sidebar.currentTool Sidebar.onToolChange Sidebar.onSettingsClick];
      destruct (tool_eqb _ _); reflexivity.
  - cbn in Hav. unfold App.run, dispatch, handle; cbn. now rewrite Hav.
  - cbn in Hav. apply andb_true_iff in Hav as [Hs _].
    destruct c; unfold App.run, dispatch, handle; cbn; rewrite Hs; reflexivity.
  - reflexivity.
  - reflexivity.
Qed.

(** X13. Every input of the page is one or two events of the session, or
    none when the element it addresses is not in the tree: the effect of
    the input is the effect of those events in order.  Hence whatever holds
    in all states the events can reach holds in all states the page can
    reach. *)
Theorem page_inputs_are_session_events (w : Session) (inputs : list Shell.Input) :
  (forall i, Shell.dispatch w i = App.run w (Shell.lower (state w) i) /\
             (List.length (Shell.lower (state w) i) <= 2)%nat /\
             (Shell.available (state w) i = false -> Shell.dispatch w i = w)) /\
  exists evs, Shell.run w inputs = App.run w evs.
Proof.
  split.
  - intros i. split; [apply shell_dispatch_lower|]. split.
    + unfold Shell.lower. destruct (Shell.available _ _); cbn [negb]; [|simpl; lia].
      destruct i as [c| |c| |k e]; try (simpl; lia).
      * destruct c; simpl; try lia; destruct (tool_eqb _ _); simpl; lia.
      * destruct c; simpl; lia.
    + intros Hav. unfold Shell.dispatch, Shell.handle. now rewrite Hav.
  - revert w. induction inputs as [|i inputs IH]; intros w.
    + exists []. reflexivity.
    + destruct (IH (Shell.dispatch w i)) as [evs Hevs].
      exists (Shell.lower (state w) i ++ evs).
      change (Shell.run w (i :: inputs)) with (Shell.run (Shell.dispatch w i) inputs).
      rewrite Hevs, shell_dispatch_lower. unfold App.run.
      now rewrite fold_left_app.
Qed.

(** [sound] in propositional form. *)
Lemma sound_iff (s : State) :
  sound s = true <->
  (PrimFloat.leb 1 (penWidth s) = true /\
   PrimFloat.leb (penWidth s) 50 = true /\
   PrimFloat.leb 1 (eraserWidth s) = true /\
   PrimFloat.leb (eraserWidth s) 100 = true) /\
  Forall (fun st => stroke_ok st = true) (all_strokes s).
Proof.
  unfold sound. rewrite !andb_true_iff, forallb_forall, Forall_forall. tauto.
Qed.

Lemma stroke_ok_fresh (s : State) (p : Point) :
  PrimFloat.leb 1 (penWidth s) = true ->
  PrimFloat.leb (penWidth s) 50 = true ->
  PrimFloat.leb 1 (eraserWidth s) = true ->
  PrimFloat.leb (eraserWidth s) 100 = true ->
  stroke_ok (fresh_stroke s p) = true.
Proof.
  intros H1 H2 H3 H4. unfold stroke_ok, width_in_range, fresh_stroke; simpl.
  destruct (tool_eqb (currentTool s) eraser); simpl; now rewrite ?H1, ?H2, ?H3, ?H4.
Qed.

Lemma stroke_ok_extend (cs : Stroke) (p : Point) :
  stroke_ok cs = true -> stroke_ok (extend cs [p]) = true.
Proof.
  unfold stroke_ok. rewrite !andb_true_iff. intros [Hw Hr].
  split; [now apply well_formed_extend | exact Hr].
Qed.

Ltac unfold_handlers' :=
  unfold dispatch, handle, CanvasZone.handlePointerDown,
    CanvasZone.handlePointerMove, CanvasZone.pointerUpListener,
    CanvasZone.pointerLeaveListener, CanvasZone.isActiveWritingZone,
    handlePointerDown, handlePointerMove, handlePointerUp,
    handleImageUpload, handleClearStrokes, onToggleSide,
    onToggleVisibility, onToggleLabels, onWidthChange;
  cbn [zoneProps CanvasZone.activeZone CanvasZone.zoneType].

(** The widths after one event. *)
Lemma dispatch_widths (w : Session) (ev : Event) :
  (penWidth (state (dispatch w ev)) = penWidth (state w) /\
   eraserWidth (state (dispatch w ev)) = eraserWidth (state w)) \/
  (exists v, ev = WidthChange v /\ showSettings (state w) = true /\
     if tool_eqb (currentTool (state w)) eraser
     then penWidth (state (dispatch w ev)) = penWidth (state w) /\
          eraserWidth (state (dispatch w ev)) = v
     else penWidth (state (dispatch w ev)) = v /\
          eraserWidth (state (dispatch w ev)) = eraserWidth (state w)).
Proof.
  destruct w as [s caps]. cbn [state].
  destruct ev; unfold_handlers'; cbn [state];
    try (left; split; reflexivity);
    repeat match goal with
           | |- context [if ?b then _ else _] => destruct b eqn:?
           | |- context [match ?o with Some _ => _ | None => _ end] =>
               destruct o eqn:?
           end;
    try (left; split; reflexivity).
  - right. exists w. repeat split; auto.
  - right. exists w. repeat split; auto.
Qed.

Lemma sound_dispatch (w : Session) (ev : Event) :
  sound (state w) = true ->
  in_slider_range (state w) ev = true ->
  sound (state (dispatch w ev)) = true.
Proof.
  rewrite !sound_iff. intros [(H1 & H2 & H3 & H4) Hink] Hr. split.
  - destruct (dispatch_widths w ev) as [[-> ->]|(v & -> & _ & Hcase)]; [auto|].
    simpl in Hr. apply andb_true_iff in Hr as [Hlo Hhi].
    destruct (tool_eqb (currentTool (state w)) eraser);
      destruct Hcase as [-> ->]; auto.
  - apply ink_invariant; auto using stroke_ok_extend.
    intros p. now apply stroke_ok_fresh.
Qed.

Lemma sound_shell_dispatch (w : Session) (i : Shell.Input) :
  sound (state w) = true -> sound (state (Shell.dispatch w i)) = true.
Proof.
  intros Hs. rewrite shell_dispatch_lower. unfold Shell.lower.
  destruct (Shell.available (state w) i) eqn:Hav; cbn [negb]; [|exact Hs].
  destruct i as [c| |c| |k e].
  - destruct c; try (apply sound_dispatch; [exact Hs | reflexivity]);
      destruct (tool_eqb _ _);
      try (apply sound_dispatch; [exact Hs | reflexivity]);
      (apply sound_dispatch; [apply sound_dispatch; [exact Hs | reflexivity]
                             | reflexivity]).
  - apply sound_dispatch; [exact Hs | reflexivity].
  - destruct c; try (apply sound_dispatch; [exact Hs | reflexivity]).
    apply sound_dispatch; [exact Hs|].
    cbn in Hav. apply andb_true_iff in Hav as [_ Hav]. exact Hav.
  - apply sound_dispatch; [exact Hs | reflexivity].
  - apply sound_dispatch; [exact Hs|]. now destruct k.
Qed.

(** X14. In every state the page can reach from the initial one, the pen
    width lies between 1 and 50 and the eraser width between 1 and 100, the
    ranges of the two sliders, and every stroke, committed or in progress,
    has at least one point, its eraser flag, and a width in the range of
    the slider of its own tool. *)
Theorem page_keeps_session_sound (img : string) (inputs : list Shell.Input) :
  let s := state (Shell.run (initial img) inputs) in
  sound s = true /\
  (PrimFloat.leb 1 (penWidth s) && PrimFloat.leb (penWidth s) 50)%bool = true /\
  (PrimFloat.leb 1 (eraserWidth s) && PrimFloat.leb (eraserWidth s) 100)%bool
    = true /\
  (forall st, In st (all_strokes s) ->
              points st <> [] /\ width_in_range st = true).
Proof.
  intros s.
  assert (Hs : sound s = true).
  { subst s. unfold Shell.run.
    assert (H0 : sound (state (initial img)) = true) by reflexivity.
    revert H0. generalize (initial img).
    induction inputs as [|i inputs IH]; intros w Hw; simpl; [exact Hw|].
    apply IH. now apply sound_shell_dispatch. }
  split; [exact Hs|].
  apply sound_iff in Hs as [(H1 & H2 & H3 & H4) Hink].
  rewrite H1, H2, H3, H4. split; [reflexivity|]. split; [reflexivity|].
  intros st Hin. rewrite Forall_forall in Hink. specialize (Hink st Hin).
  unfold stroke_ok in Hink. apply andb_true_iff in Hink as [Hw Hr].
  split; [|exact Hr].
  unfold well_formed_stroke in Hw. destruct (points st); [discriminate|congruence].
Qed.

End ShellExtras.

(* ------------------------------------------------------------------ *)
(** * Sidebar, settings panel and background image *)

Section PanelExtras.
Import Types DrawUtils App Ink Scenario.

(** X15. A tool button selects its tool; settings open on a click of the
    button of the tool that is already selected (and stay open if they
    were), so two clicks on the same button always end with that tool
    selected and the settings open, while one click on the other tool's
    button switches tools without opening them.  Neither click touches the
    widths, the colour or the ink. *)
Theorem tool_button_second_click_opens_settings (w : Session) (t : ToolType) :
  let click := Shell.SidebarInput (Sidebar.tool_button t) in
  let w1 := Shell.dispatch w click in
  let w2 := Shell.dispatch w1 click in
  currentTool (state w1) = t /\
  showSettings (state w1)
    = (showSettings (state w) || tool_eqb (currentTool (state w)) t)%bool /\
  currentTool (state w2) = t /\
  showSettings (state w2) = true /\
  (penWidth (state w2), eraserWidth (state w2), penColor (state w2),
   strokes (state w2), currentStroke (state w2))
  = (penWidth (state w), eraserWidth (state w), penColor (state w),
     strokes (state w), currentStroke (state w)).
Proof.
  destruct w as [s caps]. destruct s.
  destruct t, currentTool0, showSettings0; repeat split.
Qed.



(** X17. The background image: choosing a file sets it, and the sidebar
    then offers the clear button instead of the file input; each zone that
    shows content displays the image, flipped vertically exactly in the
    mirrored zone; clearing removes it from both zones and brings the file
    input back; a file dialog closed without a file changes nothing. *)
Theorem background_image_lifecycle (w : Session) (url : string) :
  truthy_string url = true ->
  bgImage (state w) = "" ->
  let up := Shell.dispatch w (Shell.SidebarInput (Sidebar.UploadInput (Some url))) in
  let cl := Shell.dispatch up (Shell.SidebarInput Sidebar.ClearBgButton) in
  Shell.dispatch w (Shell.SidebarInput (Sidebar.UploadInput None)) = w /\
  Shell.dispatch w (Shell.SidebarInput Sidebar.ClearBgButton) = w /\
  bgImage (state up) = url /\
  (forall file, Shell.available (state up)
                  (Shell.SidebarInput (Sidebar.UploadInput file)) = false) /\
  (forall z,
      CanvasZone.background (CanvasZone.view (zone up z))
      = if CanvasZone.shouldShowContent (zone w z)
        then Some (url, negb (zone_eqb z (activeZone (state w))))
        else None) /\
  cl = w /\
  (forall z, CanvasZone.background (CanvasZone.view (zone cl z)) = None).
Proof.
  intros Hurl Hbg up cl. subst up cl.
  destruct url as [|ch url]; [discriminate Hurl|]. clear Hurl.
  destruct w as [s caps]. destruct s. cbn [state bgImage] in Hbg. subst.
  split; [reflexivity|]. split; [reflexivity|]. split; [reflexivity|].
  split; [reflexivity|]. split; [|split; [reflexivity|]].
  - intros z. destruct z, activeZone0, hideActiveZone0; reflexivity.
  - intros z. reflexivity.
Qed.

Lemma background_image_lifecycle_witness :
  CanvasZone.background
    (CanvasZone.view
       (zone (Shell.dispatch (initial "")
                (Shell.SidebarInput (Sidebar.UploadInput (Some "blob:1"))))
             TOP))
  = Some ("blob:1", true).
Proof.
  exact (proj1 (proj2 (proj2 (proj2 (proj2
           (background_image_lifecycle (initial "") "blob:1" eq_refl eq_refl)))))
           TOP).
Defined.

(** X18. The two zones and the sidebar agree on who writes: exactly one
    canvas takes pointer events, the active one; when labels are on it is
    the one labelled as the writing zone and the other is labelled as the
    display zone, and when labels are off neither has a label; the sidebar
    caption names the bottom zone exactly when the bottom canvas is the one
    taking pointer events; only the active zone is ever blanked by the
    hidden mode. *)
Theorem zones_and_sidebar_agree (w : Session) :
  let a := activeZone (state w) in
  let other := match a with TOP => BOTTOM | BOTTOM => TOP end in
  CanvasZone.canvasPointerEvents (CanvasZone.view (zone w a)) = true /\
  CanvasZone.canvasPointerEvents (CanvasZone.view (zone w other)) = false /\
  CanvasZone.label (CanvasZone.view (zone w a))
    = (if showLabels (state w) then Some "写字区" else None) /\
  CanvasZone.label (CanvasZone.view (zone w other))
    = (if showLabels (state w) then Some "显示区" else None) /\
  (Sidebar.sideCaption (Sidebar.view (Shell.sidebarProps (state w))) = "下写" <->
   CanvasZone.canvasPointerEvents (CanvasZone.view (zone w BOTTOM)) = true) /\
  CanvasZone.shouldShowContent (zone w other) = true /\
  CanvasZone.shouldShowContent (zone w a) = negb (hideActiveZone (state w)).
Proof.
  destruct w as [s caps]. destruct s. cbn.
  unfold CanvasZone.view, zone, CanvasZone.shouldShowContent,
    CanvasZone.isActiveWritingZone. cbn.
  destruct activeZone0, showLabels0, hideActiveZone0; cbn;
    repeat split; intros; try reflexivity; try discriminate.
Qed.

End PanelExtras.

(* ------------------------------------------------------------------ *)
(** * More on rendering *)

Section RenderExtras.
Import Types Canvas DrawUtils Geometry CanvasZone Ink Scenario.

Lemma segments_mirror (W H : number) (rest : list Point) (ctx : Ctx) :
  fold_left (segment W H true) rest ctx
  = fold_left (segment W H false) (map flip_point rest) ctx.
Proof.
  revert ctx. induction rest as [|p rest IH]; intros ctx; [reflexivity|].
  simpl. rewrite IH. reflexivity.
Qed.

Lemma drawStroke_mirror (ctx : Ctx) (s : Stroke) (W H : number) :
  drawStroke ctx s W H true = drawStroke ctx (flip_stroke s) W H false.
Proof.
  unfold drawStroke, flip_stroke. cbn [points color Types.width isEraser].
  destruct (points s) as [|p0 [|p1 rest]]; [reflexivity | reflexivity |].
  cbn [map]. cbv zeta.
  fold (segment W H true) (segment W H false).
  change (flip_point p1 :: map flip_point rest) with (map flip_point (p1 :: rest)).
  rewrite <- segments_mirror. reflexivity.
Qed.

Lemma drawStrokes_mirror (W H : number) (log : list Stroke) (ctx : Ctx) :
  fold_left (fun c s => drawStroke c s W H true) log ctx
  = fold_left (fun c s => drawStroke c s W H false) (map flip_stroke log) ctx.
Proof.
  revert ctx. induction log as [|s log IH]; intros ctx; [reflexivity|].
  simpl. rewrite IH, drawStroke_mirror. reflexivity.
Qed.

(** X19. Mirroring is reflection of the data: drawing a stroke with the
    mirror flag set leaves the context exactly as drawing, without the
    flag, the stroke whose every point has Y replaced by 1 - Y; and the
    render of a mirrored zone is exactly the render of an unmirrored zone
    that is given the reflected log and the reflected stroke in progress. *)
Theorem mirror_is_reflection_of_points
        (p : Props) (cw ch dpr : number) (ctx : Ctx) :
  isMirror p = true ->
  render_ctx p cw ch dpr ctx = render_ctx (flip_props p) cw ch dpr ctx /\
  isMirror (flip_props p) = false /\
  (forall c s W H,
      drawStroke c s W H true = drawStroke c (flip_stroke s) W H false).
Proof.
  intros Hm.
  assert (Hm' : isMirror (flip_props p) = false).
  { unfold isMirror, flip_props; simpl. now rewrite zone_eqb_refl. }
  split; [|split; [exact Hm' | intros; apply drawStroke_mirror]].
  unfold render_ctx. rewrite Hm, Hm'.
  assert (Hs : shouldShowContent p = true).
  { unfold shouldShowContent, isActiveWritingZone. unfold isMirror in Hm.
    apply negb_true_iff in Hm. now rewrite Hm. }
  assert (Hs' : shouldShowContent (flip_props p) = true).
  { unfold shouldShowContent, flip_props; simpl. now rewrite andb_false_r. }
  rewrite Hs, Hs'. cbn [negb]. cbv zeta.
  unfold flip_props; cbn [strokes currentStroke].
  rewrite drawStrokes_mirror.
  destruct (currentStroke p) as [cs|]; [|reflexivity].
  simpl. apply drawStroke_mirror.
Qed.

Lemma mirror_is_reflection_of_points_witness :
  render_ctx (App.zone blind TOP) 200%float 100%float 2%float fresh
  = render_ctx (flip_props (App.zone blind TOP)) 200%float 100%float 2%float
      fresh.
Proof.
  exact (proj1 (mirror_is_reflection_of_points (App.zone blind TOP)
                  200%float 100%float 2%float fresh eq_refl)).
Defined.




(** X21. The ratio the render divides the canvas size by is never zero and
    never NaN: a device pixel ratio of +0, -0 or NaN, and only these, is
    replaced by 1; any other value is used as it is, so rendering with the
    ratio reported or with the effective one is the same. *)
Theorem render_never_divides_by_zero
        (p : Props) (cw ch dpr : number) (ctx : Ctx) :
  (forall sgn, Prim2SF (effective_ratio dpr) <> S754_zero sgn) /\
  Prim2SF (effective_ratio dpr) <> S754_nan /\
  (effective_ratio dpr = dpr \/ effective_ratio dpr = 1%float) /\
  (truthy_number dpr = false <->
   (exists sgn, Prim2SF dpr = S754_zero sgn) \/ Prim2SF dpr = S754_nan) /\
  render_ctx p cw ch dpr ctx = render_ctx p cw ch (effective_ratio dpr) ctx.
Proof.
  assert (Hspec : truthy_number dpr = false <->
            (exists sgn, Prim2SF dpr = S754_zero sgn) \/ Prim2SF dpr = S754_nan).
  { unfold truthy_number, is_nan.
    rewrite negb_false_iff, orb_true_iff, negb_true_iff, !FloatAxioms.eqb_spec.
    change (Prim2SF 0) with (S754_zero false).
    destruct (Prim2SF dpr) as [s|s| |s m e]; unfold SFeqb, SFcompare.
    - split; [eauto | auto].
    - split; [intros [H|H]; destruct s; discriminate H
             | intros [[sgn H]|H]; discriminate H].
    - split; [auto | auto].
    - split; [intros [H|H]|intros [[sgn H]|H]; discriminate H].
      + destruct s; discriminate H.
      + destruct s; rewrite Z.compare_refl, Pos.compare_cont_refl in H;
          discriminate H. }
  assert (Htruthy : truthy_number (effective_ratio dpr) = true).
  { unfold effective_ratio. destruct (truthy_number dpr) eqn:Ht; [exact Ht|].
    reflexivity. }
  assert (Hnot : ~ ((exists sgn, Prim2SF (effective_ratio dpr) = S754_zero sgn)
                    \/ Prim2SF (effective_ratio dpr) = S754_nan)).
  { intros Hbad. unfold effective_ratio in *.
    destruct (truthy_number dpr) eqn:Ht.
    - apply Hspec in Hbad. congruence.
    - destruct Hbad as [[sgn H]|H]; vm_compute in H; discriminate H. }
  split; [intros sgn H; apply Hnot; eauto|].
  split; [intros H; apply Hnot; auto|].
  split; [unfold effective_ratio; destruct (truthy_number dpr); auto|].
  split; [exact Hspec|].
  unfold render_ctx. rewrite Htruthy.
  unfold effective_ratio. destruct (truthy_number dpr); reflexivity.
Qed.

(** X22. A render on a zone that is not ready does nothing: without a
    canvas the reference stays empty, and a canvas without a 2D context is
    returned as it is.  A render never changes the size of the canvas. *)
Theorem render_skips_unready_canvas
        (p : Props) (canvasRef : option Element) (dpr : number) :
  match canvasRef, render p canvasRef dpr with
  | None, None => True
  | Some canvas, Some canvas' =>
      canvas_width canvas' = canvas_width canvas /\
      canvas_height canvas' = canvas_height canvas /\
      (context2d canvas = None <-> context2d canvas' = None) /\
      (context2d canvas = None -> canvas' = canvas)
  | _, _ => False
  end.
Proof.
  destruct (render_cases p dpr) as (Hnone & Hnoctx & Hctx).
  destruct canvasRef as [canvas|]; [|now rewrite Hnone].
  destruct (context2d canvas) as [ctx|] eqn:Hc.
  - rewrite (Hctx canvas ctx Hc). simpl. repeat split; intros H; discriminate H.
  - rewrite (Hnoctx canvas Hc). rewrite Hc. repeat split; auto.
Qed.

(** X23. Whatever normalised Y in [0,1] a point has, its reflection 1 - Y
    lies on the 2^-53 grid, so reflecting is stable after the first time:
    reflecting three times gives exactly what reflecting once gives, and a
    reflected stroke reflected twice more is itself. *)
Theorem reflection_is_stable_after_once (v : number) :
  in_unit_interval v = true ->
  on_grid53 (mirror_y v) = true /\
  mirror_y (mirror_y (mirror_y v)) = mirror_y v /\
  (forall st,
      forallb (fun q => in_unit_interval (y q)) (points st) = true ->
      flip_stroke (flip_stroke (flip_stroke st)) = flip_stroke st).
Proof.
  intros Hv.
  assert (Hone : forall u, in_unit_interval u = true ->
                           mirror_y (mirror_y (mirror_y u)) = mirror_y u).
  { intros u Hu. unfold mirror_y.
    apply one_minus_one_minus. now apply one_minus_unit_on_grid53. }
  split; [unfold mirror_y; now apply one_minus_unit_on_grid53|].
  split; [now apply Hone|].
  intros st Hall. unfold flip_stroke; simpl. f_equal.
  rewrite !map_map. apply map_ext_in. intros q Hq.
  rewrite forallb_forall in Hall. specialize (Hall q Hq).
  unfold flip_point; simpl. f_equal. now apply Hone.
Qed.

Lemma reflection_is_stable_after_once_witness :
  mirror_y (mirror_y (mirror_y three_tenths)) = mirror_y three_tenths.
Proof.
  exact (proj1 (proj2 (reflection_is_stable_after_once three_tenths eq_refl))).
Defined.

(** X24. The normalised position is not guarded against a canvas without
    extent: when the bounding rectangle has width zero the X coordinate is
    never a finite number (it is NaN or infinite), and likewise Y for
    height zero. *)
Theorem zero_size_canvas_gives_no_finite_point (e : PointerEvent) :
  ((rect_width (boundingClientRect e) =? 0)%float = true ->
   finite (x (getNormalizedPoint e)) = false) /\
  ((rect_height (boundingClientRect e) =? 0)%float = true ->
   finite (y (getNormalizedPoint e)) = false).
Proof.
  assert (Hdiv : forall a b, (b =? 0)%float = true -> finite (a / b)%float = false).
  { intros a b Hb. unfold finite. rewrite div_spec.
    rewrite FloatAxioms.eqb_spec in Hb. change (Prim2SF 0) with (S754_zero false) in Hb.
    destruct (Prim2SF b) as [s|s| |s m ex]; unfold SFeqb, SFcompare in Hb;
      try discriminate Hb; try (destruct s; discriminate Hb).
    destruct (Prim2SF a); reflexivity. }
  split; intros H; apply Hdiv; exact H.
Qed.

Lemma zero_size_canvas_gives_no_finite_point_witness :
  finite (x (getNormalizedPoint
               {| pointerType := "touch"; buttons := 1; pointerId := 1;
                  clientX := 5%float; clientY := 5%float;
                  currentTarget := BOTTOM;
                  boundingClientRect :=
                    {| left := 0%float; top := 0%float;
                       rect_width := 0%float; rect_height := 10%float |} |}))
  = false.
Proof.
  exact (proj1 (zero_size_canvas_gives_no_finite_point
                  {| pointerType := "touch"; buttons := 1; pointerId := 1;
                     clientX := 5%float; clientY := 5%float;
                     currentTarget := BOTTOM;
                     boundingClientRect :=
                       {| left := 0%float; top := 0%float;
                          rect_width := 0%float; rect_height := 10%float |} |})
               eq_refl).
Defined.



End RenderExtras.

(* ------------------------------------------------------------------ *)
(** * The about panel *)

Section AboutExtras.
Import Types AboutModal.

(** X26. Loading the document always settles.  Opening the panel with a
    path marks it as loading and starts one fetch, and the placeholder is
    shown instead of any earlier content; opening without a path, or
    closing, starts nothing.  Whatever the outcome, loading ends: a
    successful answer whose body could be read shows that body; an answer
    with an error status shows the failure document with status code and
    status text and never the body; a body that cannot be read or a failed
    request shows the failure document with the error's message.  A closed
    panel renders nothing whatever its state. *)
Theorem about_document_always_settles (s : State) (o : Outcome) :
  let s' := run s (settle o) in
  loading s' = false /\
  (forall isOpen,
      view isOpen s' = if isOpen then Document (content s') else Nothing) /\
  match o with
  | Answered true _ _ (inl body) => content s' = body
  | Answered true _ _ (inr message) => s' = run s (onRejected message)
  | Answered false status statusText _ =>
      s' = run s (onRejected
                    ("无法加载文档: " ++ decimal status ++ " " ++ statusText)%string)
  | Failed message => s' = run s (onRejected message)
  end /\
  (forall path,
      truthy_string path = true ->
      onOpenChange true path = [setLoading true; fetch path] /\
      view true (run s (onOpenChange true path)) = Placeholder /\
      content (run s (onOpenChange true path)) = content s) /\
  (forall path, onOpenChange false path = [] /\ onOpenChange true "" = []) /\
  (forall t, view false t = Nothing).
Proof.
  intros s'. subst s'.
  split; [|split; [|split; [|split; [|split]]]].
  - destruct o as [[|] status statusText [body|message]|message]; reflexivity.
  - intros [|]; destruct o as [[|] status statusText [body|message]|message];
      reflexivity.
  - destruct o as [[|] status statusText [body|message]|message]; reflexivity.
  - intros path Hp. unfold onOpenChange. rewrite Hp. repeat split.
  - intros path. split; reflexivity.
  - intros t. reflexivity.
Qed.

Lemma about_document_always_settles_witness :
  content (run initial (settle (Answered false 404 "Not Found" (inl "<html>"))))
  = ("# 加载失败" ++ newline ++ newline
     ++ "抱歉，无法加载文档内容。" ++ newline ++ newline
     ++ "错误信息: 无法加载文档: 404 Not Found")%string /\
  view true (run initial (onOpenChange true "./README.md")) = Placeholder.
Proof.
  split; [reflexivity|].
  exact (proj1 (proj2 (proj1 (proj2 (proj2 (proj2
           (about_document_always_settles initial (Failed "x")))))
           "./README.md" eq_refl))).
Defined.

End AboutExtras.

(* ------------------------------------------------------------------ *)
(** * Normalised points are numbers *)

Section NormalizedPointFacts.
Import Types DrawUtils Ink Scenario.
Local Open Scope Z_scope.

Lemma shr_nonneg (r : shr_record) (e n : Z) :
  0 <= shr_m r -> 0 <= shr_m (fst (shr r e n)).
Proof.
  intros Hr. unfold shr. destruct n as [|p|p]; cbn [fst]; try exact Hr.
  now apply iter_shr_1_m.
Qed.

Lemma shr_record_of_loc_m (m : Z) (l : location) :
  shr_m (shr_record_of_loc m l) = m.
Proof. destruct l as [|[| |]]; reflexivity. Qed.

Lemma shr_fexp_nonneg (m e : Z) (l : location) :
  0 <= m -> 0 <= shr_m (fst (shr_fexp prec emax m e l)).
Proof.
  intros Hm. unfold shr_fexp. apply shr_nonneg.
  now rewrite shr_record_of_loc_m.
Qed.

(** Rounding a non-negative mantissa never yields NaN. *)
Lemma binary_round_aux_not_nan (sx : bool) (mx ex : Z) (lx : location) :
  0 <= mx -> binary_round_aux prec emax sx mx ex lx <> S754_nan.
Proof.
  intros Hm. unfold binary_round_aux.
  pose proof (shr_fexp_nonneg mx ex lx Hm) as H1.
  destruct (shr_fexp prec emax mx ex lx) as [mrs' e'] eqn:E1. cbn [fst] in H1.
  assert (H2 : 0 <= round_nearest_even (shr_m mrs') (loc_of_shr_record mrs')).
  { destruct (round_nearest_even_range (shr_m mrs') (loc_of_shr_record mrs'))
      as [->| ->]; lia. }
  pose proof (shr_fexp_nonneg _ e' loc_Exact H2) as H3.
  destruct (shr_fexp prec emax _ e' loc_Exact) as [mrs'' e''] eqn:E2.
  cbn [fst] in H3.
  destruct (shr_m mrs'') as [|q|q]; [discriminate | | lia].
  destruct (e'' <=? emax - prec); discriminate.
Qed.

Lemma binary_normalize_not_nan (m e : Z) (szero : bool) :
  binary_normalize prec emax m e szero <> S754_nan.
Proof.
  unfold binary_normalize, binary_round.
  destruct m as [|p|p]; [discriminate| |];
    destruct (shl_align _ _ _); apply binary_round_aux_not_nan; lia.
Qed.

Lemma SFsub_not_nan (a b : spec_float) :
  (forall s, a <> S754_infinity s) -> a <> S754_nan ->
  (forall s, b <> S754_infinity s) -> b <> S754_nan ->
  SFsub prec emax a b <> S754_nan.
Proof.
  intros Ha1 Ha2 Hb1 Hb2.
  destruct a as [sa|sa| |sa ma ea]; try congruence; try (now destruct (Ha1 sa));
    destruct b as [sb|sb| |sb mb eb]; try congruence; try (now destruct (Hb1 sb));
    unfold SFsub.
  - destruct sa, sb; discriminate.
  - discriminate.
  - discriminate.
  - apply binary_normalize_not_nan.
Qed.

Lemma SFdiv_not_nan (a : spec_float) (sb : bool) (mb : positive) (eb : Z) :
  a <> S754_nan -> SFdiv prec emax a (S754_finite sb mb eb) <> S754_nan.
Proof.
  intros Ha. destruct a as [sa|sa| |sa ma ea]; try congruence;
    unfold SFdiv; try discriminate.
  unfold SFdiv_core_binary.
  set (s := _ - _ - _).
  set (m' := match s with Z.pos _ => Z.shiftl (Z.pos ma) s | 0 => Z.pos ma
                     | Z.neg _ => 0 end).
  assert (Hm' : 0 <= m').
  { subst m'. destruct s; try lia. apply Z.shiftl_nonneg. lia. }
  pose proof (Z_div_mod m' (Z.pos mb) ltac:(lia)) as Hdm.
  destruct (Z.div_eucl m' (Z.pos mb)) as [q r].
  apply binary_round_aux_not_nan. nia.
Qed.

Lemma finite_spec (n : number) :
  finite n = true ->
  (forall s, Prim2SF n <> S754_infinity s) /\ Prim2SF n <> S754_nan.
Proof.
  unfold finite. destruct (Prim2SF n); intros H; try discriminate H;
    split; intros; discriminate.
Qed.

(** X27. On a canvas whose bounding rectangle has a finite, non-zero
    extent, a pointer at a finite position is given normalised coordinates
    that are numbers: neither X nor Y is ever NaN. *)
Theorem normalized_point_is_a_number (e : PointerEvent) :
  let r := boundingClientRect e in
  finite (clientX e) = true -> finite (left r) = true ->
  finite (rect_width r) = true -> (rect_width r =? 0)%float = false ->
  finite (clientY e) = true -> finite (top r) = true ->
  finite (rect_height r) = true -> (rect_height r =? 0)%float = false ->
  Prim2SF (x (getNormalizedPoint e)) <> S754_nan /\
  Prim2SF (y (getNormalizedPoint e)) <> S754_nan.
Proof.
  assert (Hq : forall a b c, finite a = true -> finite b = true ->
             finite c = true -> (c =? 0)%float = false ->
             Prim2SF ((a - b) / c)%float <> S754_nan).
  { intros a b c Ha Hb Hc Hz.
    rewrite div_spec, sub_spec.
    apply finite_spec in Ha as [Ha1 Ha2]. apply finite_spec in Hb as [Hb1 Hb2].
    pose proof (SFsub_not_nan _ _ Ha1 Ha2 Hb1 Hb2) as Hsub.
    rewrite FloatAxioms.eqb_spec in Hz.
    change (Prim2SF 0) with (S754_zero false) in Hz.
    unfold finite in Hc.
    destruct (Prim2SF c) as [s|s| |s m ex]; try discriminate Hc.
    - discriminate Hz.
    - now apply SFdiv_not_nan. }
  intros r Hx Hl Hw Hwz Hy Ht Hh Hhz. split; apply Hq; assumption.
Qed.

Lemma normalized_point_is_a_number_witness :
  Prim2SF (x (getNormalizedPoint down_center)) <> S754_nan.
Proof.
  exact (proj1 (normalized_point_is_a_number down_center eq_refl eq_refl
                  eq_refl eq_refl eq_refl eq_refl eq_refl eq_refl)).
Defined.

End NormalizedPointFacts.

(* ------------------------------------------------------------------ *)
(** * From gesture to paint *)

Section EndToEnd.
Import Types Canvas DrawUtils Geometry CanvasZone App Ink Scenario.



End EndToEnd.
